(** * Multiplication counts of complex-valued neural networks

    A shallow embedding of [cvnn_complexity.py]: the six functions
    [cvfnn_complexity], [scfnn_complexity], [mlmvn_complexity],
    [crbf_complexity], [fcrbf_complexity] and [ptrbf_complexity].

    Python integers are unbounded, so widths and costs are [Z].  A Python
    list of integers is a [list Z].  Subscripting a list can raise
    [IndexError]; the functions that subscript therefore return a
    [result].  The two scalar functions only multiply and add, cannot
    raise, and return a plain pair. *)

From Stdlib Require Import ZArith List Lia Bool.
From stdpp Require Import base list gmap.
Import ListNotations.
Open Scope Z_scope.

(** ** Exceptions and the error monad *)

(** The only exception a call on lists of integers can raise. *)
Inductive exn : Type :=
| IndexError.

Inductive result (A : Type) : Type :=
| Ok (a : A)
| Raise (e : exn).
Arguments Ok {A} a.
Arguments Raise {A} e.

Definition bind {A B : Type} (m : result A) (f : A -> result B) : result B :=
  match m with
  | Ok a => f a
  | Raise e => Raise e
  end.

Declare Scope py_scope.
Delimit Scope py_scope with py.
Notation "'do' x <- m ; f" := (bind m (fun x => f))
  (at level 10, x name, m at level 100, f at level 200,
   format "'[v' 'do'  x  <-  m ; '/' f ']'") : py_scope.
Open Scope py_scope.

(** A list comprehension [[f l for l in ls]]: the elements are computed
    from left to right and the first exception aborts the whole. *)
Fixpoint comprehension {A B : Type} (f : A -> result B) (ls : list A)
  : result (list B) :=
  match ls with
  | [] => Ok []
  | l :: ls' =>
      do y <- f l;
      do ys <- comprehension f ls';
      Ok (y :: ys)
  end.

(** ** Python built-ins *)

(** [len(I)]. *)
Definition py_len (I : list Z) : Z := Z.of_nat (length I).

(** [I[k]]: a negative subscript counts from the end, and a subscript
    outside [-len(I) .. len(I)-1] raises [IndexError]. *)
Definition getitem (I : list Z) (k : Z) : result Z :=
  let k' := if k <? 0 then k + py_len I else k in
  if (0 <=? k') && (k' <? py_len I) then
    match I !! Z.to_nat k' with
    | Some x => Ok x
    | None => Raise IndexError
    end
  else Raise IndexError.

(** [range(a, b)]: [a, a+1, ..., b-1], empty when [b <= a]. *)
Definition py_range (a b : Z) : list Z :=
  map (fun n => a + Z.of_nat n) (seq 0 (Z.to_nat (b - a))).

(** [sum(xs)]: starts from 0 and adds the elements from left to right. *)
Definition py_sum (xs : list Z) : Z := fold_left Z.add xs 0.

(** ** The six functions *)

Definition cvfnn_complexity (I : list Z) : result (Z * Z) :=
  do ts <- comprehension (fun l =>
             do a <- getitem I l;
             do b <- getitem I (l - 1);
             do c <- getitem I (l + 1);
             Ok (a * (2 * b + c + 2))) (py_range 1 (py_len I - 1));
  do x <- getitem I (-1);
  do y <- getitem I (-2);
  let t := 4 * py_sum ts + 8 * x * (y + 1) in
  do us <- comprehension (fun l =>
             do a <- getitem I l;
             do b <- getitem I (l - 1);
             Ok (a * b)) (py_range 1 (py_len I));
  let i := 4 * py_sum us in
  Ok (t, i).

Definition scfnn_complexity (I : list Z) : result (Z * Z) :=
  do ts <- comprehension (fun l =>
             do a <- getitem I l;
             do b <- getitem I (l - 1);
             do c <- getitem I (l + 1);
             Ok (a * (2 * b + c + 2))) (py_range 1 (py_len I - 1));
  do x <- getitem I (-1);
  do y <- getitem I (-2);
  let t := 4 * py_sum ts + 2 * x * (4 * y + 3) in
  do us <- comprehension (fun l =>
             do a <- getitem I l;
             do b <- getitem I (l - 1);
             Ok (a * b)) (py_range 1 (py_len I));
  let i := 4 * py_sum us in
  Ok (t, i).

Definition mlmvn_complexity (I : list Z) : result (Z * Z) :=
  do ts <- comprehension (fun l =>
             do a <- getitem I l;
             do b <- getitem I (l - 1);
             do c <- getitem I (l + 1);
             Ok (a * (2 * b + c + 4))) (py_range 1 (py_len I - 1));
  do x <- getitem I (-1);
  do y <- getitem I (-2);
  let t := 4 * py_sum ts + 4 * x * (2 * y + 3) in
  do us <- comprehension (fun l =>
             do a <- getitem I l;
             do b <- getitem I (l - 1);
             Ok (a * (b + 1))) (py_range 1 (py_len I));
  let i := 4 * py_sum us in
  Ok (t, i).

Definition crbf_complexity (inp neurons out : Z) : Z * Z :=
  let t := neurons * (4 * inp + 6 * out + 5) + 4 * out in
  let i := neurons * (2 * inp + 2 * out + 1) in
  (t, i).

Definition fcrbf_complexity (inp neurons out : Z) : Z * Z :=
  let t := 12 * neurons * (inp + out + 1) + 4 * out in
  let i := 4 * neurons * (inp + out) in
  (t, i).

(** The parameter [I] is rebound to the new list [[0] + I]; the sums below
    read that list. *)
Definition ptrbf_complexity (I O : list Z) : result (Z * Z) :=
  let I := [0] ++ I in
  do ts <- comprehension (fun l =>
             do a <- getitem I l;
             do b <- getitem O (l - 1);
             do c <- getitem O l;
             Ok (a * (b + 3 * c + 3))) (py_range 1 (py_len I));
  do vs <- comprehension (fun l =>
             do a <- getitem O l;
             do b <- getitem I (l + 1);
             Ok (a * (b + 1))) (py_range 1 (py_len I - 1));
  do z <- getitem O (-1);
  let t := 4 * py_sum ts + 4 * py_sum vs + 4 * z in
  do us <- comprehension (fun l =>
             do a <- getitem I l;
             do b <- getitem O (l - 1);
             do c <- getitem O l;
             Ok (a * (b + 2 * c + 1))) (py_range 1 (py_len I));
  let i := 2 * py_sum us in
  Ok (t, i).


(** ** The closed formulas

    The sums as the paper writes them: [sigma lo hi f] is the sum of [f l]
    for [l = lo .. hi] (empty when [hi < lo]), and [width I l] is the
    [l]-th entry of [I] counted from 0. *)

Fixpoint sigma_from (lo cnt : nat) (f : nat -> Z) : Z :=
  match cnt with
  | O => 0
  | S cnt' => f lo + sigma_from (S lo) cnt' f
  end.

Definition sigma (lo hi : nat) (f : nat -> Z) : Z :=
  sigma_from lo (S hi - lo) f.

Definition width (I : list Z) (l : nat) : Z := nth l I 0.

(** [I[-1]] and [I[-2]] of a list that is long enough. *)
Definition last1 (I : list Z) : Z := width I (length I - 1).
Definition last2 (I : list Z) : Z := width I (length I - 2).

Definition interior_sum (bias : Z) (I : list Z) : Z :=
  sigma 1 (length I - 2)
    (fun l => width I l * (2 * width I (l - 1) + width I (l + 1) + bias)).

Definition cvfnn_formula (I : list Z) : Z * Z :=
  (4 * interior_sum 2 I + 8 * last1 I * (last2 I + 1),
   4 * sigma 1 (length I - 1) (fun l => width I l * width I (l - 1))).

Definition scfnn_formula (I : list Z) : Z * Z :=
  (4 * interior_sum 2 I + 2 * last1 I * (4 * last2 I + 3),
   4 * sigma 1 (length I - 1) (fun l => width I l * width I (l - 1))).

Definition mlmvn_formula (I : list Z) : Z * Z :=
  (4 * interior_sum 4 I + 4 * last1 I * (2 * last2 I + 3),
   4 * sigma 1 (length I - 1) (fun l => width I l * (width I (l - 1) + 1))).

(** The PT-RBF formula, written over the list [J = [0] + I]. *)
Definition ptrbf_formula (I O : list Z) : Z * Z :=
  let J := 0 :: I in
  (4 * sigma 1 (length J - 1)
         (fun l => width J l * (width O (l - 1) + 3 * width O l + 3))
   + 4 * sigma 1 (length J - 2)
         (fun l => width O l * (width J (l + 1) + 1))
   + 4 * last1 O,
   2 * sigma 1 (length J - 1)
         (fun l => width J l * (width O (l - 1) + 2 * width O l + 1))).

(** ** Comparing costs *)

(** Layer [k] is made [d] wider; the other layers keep their width. *)
Definition widen (k : nat) (d : Z) (I : list Z) : list Z :=
  alter (fun w => w + d) k I.

(** [J] has the layers of [I], none of them narrower. *)
Definition dominated (I J : list Z) : Prop :=
  length I = length J /\ forall l : nat, width I l <= width J l.

Definition pair_le (c c' : Z * Z) : Prop :=
  fst c <= fst c' /\ snd c <= snd c'.

(** Both calls return, and neither cost of the second is smaller. *)
Definition cost_le (r r' : result (Z * Z)) : Prop :=
  match r, r' with
  | Ok c, Ok c' => pair_le c c'
  | _, _ => False
  end.

Definition pair_nonneg (c : Z * Z) : Prop := 0 <= fst c /\ 0 <= snd c.

(** The call returns, and both costs are natural numbers. *)
Definition cost_nonneg (r : result (Z * Z)) : Prop :=
  match r with
  | Ok c => pair_nonneg c
  | Raise _ => False
  end.

Definition nonneg (I : list Z) : Prop := Forall (fun w => 0 <= w) I.

(** ** Lists as heap objects

    To speak about what a call does to the lists it is given, lists live
    in a heap and the function receives references.  [[0] + I] and every
    list comprehension create a new list object; a comprehension then
    appends to the object it created.  Integers and ranges are immutable
    and stay values. *)

Module Heap.

Definition loc : Type := positive.
Abbreviation heap := (gmap positive (list Z)).

(** A computation may change the heap and may raise; the heap survives an
    exception. *)
Definition M (A : Type) : Type := heap -> result A * heap.

Definition ret {A : Type} (a : A) : M A := fun h => (Ok a, h).

Definition bindM {A B : Type} (m : M A) (f : A -> M B) : M B :=
  fun h =>
    match m h with
    | (Ok a, h') => f a h'
    | (Raise e, h') => (Raise e, h')
    end.

Notation "'exec' x <- m ; f" := (bindM m (fun x => f))
  (at level 10, x name, m at level 100, f at level 200,
   format "'[v' 'exec'  x  <-  m ; '/' f ']'") : py_scope.

Definition lift {A : Type} (r : result A) : M A := fun h => (r, h).

(** The list a reference points to.  A running program only holds
    references to live objects; the statements below assume liveness
    where they depend on it. *)
Definition contents (p : loc) : M (list Z) :=
  fun h => (Ok (default [] (h !! p)), h).

(** A new list object, at an address not in use. *)
Definition new_list (xs : list Z) : M loc :=
  fun h => let p := fresh (dom h) in (Ok p, <[p := xs]> h).

(** [p.append(x)]: changes the object in place. *)
Definition list_append (p : loc) (x : Z) : M unit :=
  fun h => (Ok tt, alter (fun xs => xs ++ [x]) p h).

(** [p.insert(k, x)] for [0 <= k]: changes the object in place.  The code
    does not call it; it is what an in-place prepend would be. *)
Definition list_insert (p : loc) (k : nat) (x : Z) : M unit :=
  fun h => (Ok tt, alter (fun xs => take k xs ++ x :: drop k xs) p h).

(** [p + q]: a new object holding the concatenation. *)
Definition list_add (p q : loc) : M loc :=
  exec xs <- contents p;
  exec ys <- contents q;
  new_list (xs ++ ys).

Definition list_len (p : loc) : M Z :=
  exec xs <- contents p;
  ret (py_len xs).

Definition list_getitem (p : loc) (k : Z) : M Z :=
  exec xs <- contents p;
  lift (getitem xs k).

Definition list_sum (p : loc) : M Z :=
  exec xs <- contents p;
  ret (py_sum xs).

(** The loop of a comprehension: each element is computed and appended to
    the list under construction. *)
Fixpoint fill (p : loc) (f : Z -> M Z) (ls : list Z) : M unit :=
  match ls with
  | [] => ret tt
  | l :: ls' =>
      exec y <- f l;
      exec _ <- list_append p y;
      fill p f ls'
  end.

Definition list_comprehension (f : Z -> M Z) (ls : list Z) : M loc :=
  exec p <- new_list [];
  exec _ <- fill p f ls;
  ret p.

(** The heap [h'] still holds every object of [h], unchanged. *)
Definition preserves (h h' : heap) : Prop :=
  forall q : loc, is_Some (h !! q) -> h' !! q = h !! q.

(** A computation that leaves alone every object that exists when it
    starts. *)
Definition framed {A : Type} (m : M A) : Prop :=
  forall h : heap, preserves h (snd (m h)).

End Heap.

(** The function on references to its two lists.  The local name [I] is
    rebound to the new list; the caller's list keeps its reference. *)
Module ByReference.
Import Heap.

Definition ptrbf_complexity (I O : loc) : M (Z * Z) :=
  exec z <- new_list [0];
  exec I <- list_add z I;
  exec n <- list_len I;
  exec ts <- list_comprehension (fun l =>
               exec a <- list_getitem I l;
               exec b <- list_getitem O (l - 1);
               exec c <- list_getitem O l;
               ret (a * (b + 3 * c + 3))) (py_range 1 n);
  exec s1 <- list_sum ts;
  exec n <- list_len I;
  exec vs <- list_comprehension (fun l =>
               exec a <- list_getitem O l;
               exec b <- list_getitem I (l + 1);
               ret (a * (b + 1))) (py_range 1 (n - 1));
  exec s2 <- list_sum vs;
  exec y <- list_getitem O (-1);
  let t := 4 * s1 + 4 * s2 + 4 * y in
  exec n <- list_len I;
  exec us <- list_comprehension (fun l =>
               exec a <- list_getitem I l;
               exec b <- list_getitem O (l - 1);
               exec c <- list_getitem O l;
               ret (a * (b + 2 * c + 1))) (py_range 1 n);
  exec s3 <- list_sum us;
  let i := 2 * s3 in
  ret (t, i).

End ByReference.

(** * Properties *)

(** ** Subscripts, ranges and sums *)

Lemma py_len_nonneg (I : list Z) : 0 <= py_len I.
Proof. unfold py_len. lia. Qed.

Lemma lookup_width (I : list Z) (n : nat) :
  (n < length I)%nat -> I !! n = Some (width I n).
Proof.
  intros Hn. unfold width.
  destruct (I !! n) as [x|] eqn:E.
  - f_equal. symmetry. apply nth_lookup_Some with (d := 0). exact E.
  - apply lookup_ge_None in E. lia.
Qed.

Lemma getitem_nonneg (I : list Z) (k : Z) :
  0 <= k < py_len I -> getitem I k = Ok (width I (Z.to_nat k)).
Proof.
  intros Hk. unfold getitem.
  destruct (k <? 0) eqn:E; [apply Z.ltb_lt in E; lia|].
  replace (0 <=? k) with true by (symmetry; apply Z.leb_le; lia).
  replace (k <? py_len I) with true by (symmetry; apply Z.ltb_lt; lia).
  simpl. rewrite lookup_width; [reflexivity|]. unfold py_len in Hk. lia.
Qed.

Lemma getitem_neg (I : list Z) (k : Z) :
  - py_len I <= k < 0 ->
  getitem I k = Ok (width I (Z.to_nat (k + py_len I))).
Proof.
  intros Hk. unfold getitem.
  replace (k <? 0) with true by (symmetry; apply Z.ltb_lt; lia).
  replace (0 <=? k + py_len I) with true by (symmetry; apply Z.leb_le; lia).
  replace (k + py_len I <? py_len I) with true
    by (symmetry; apply Z.ltb_lt; lia).
  simpl. rewrite lookup_width; [reflexivity|]. unfold py_len in *. lia.
Qed.

Lemma getitem_raise (I : list Z) (k : Z) :
  k < - py_len I \/ py_len I <= k -> getitem I k = Raise IndexError.
Proof.
  intros Hk. unfold getitem. pose proof (py_len_nonneg I) as Hl.
  destruct (k <? 0) eqn:E.
  - apply Z.ltb_lt in E.
    replace (0 <=? k + py_len I) with false
      by (symmetry; apply Z.leb_gt; lia).
    reflexivity.
  - apply Z.ltb_ge in E.
    replace (k <? py_len I) with false by (symmetry; apply Z.ltb_ge; lia).
    rewrite andb_false_r. reflexivity.
Qed.

Lemma py_range_nil (a b : Z) : b <= a -> py_range a b = [].
Proof.
  intros H. unfold py_range.
  replace (Z.to_nat (b - a)) with O by lia. reflexivity.
Qed.

Lemma py_range_step (a b : Z) : a < b -> py_range a b = a :: py_range (a + 1) b.
Proof.
  intros H. unfold py_range.
  replace (Z.to_nat (b - a)) with (S (Z.to_nat (b - (a + 1)))) by lia.
  cbn [seq map]. f_equal; [lia|].
  rewrite <- seq_shift, map_map. apply map_ext. intros n. lia.
Qed.

Lemma in_py_range (a b x : Z) : In x (py_range a b) <-> a <= x < b.
Proof.
  unfold py_range. rewrite in_map_iff. split.
  - intros (n & <- & Hn). apply in_seq in Hn. lia.
  - intros Hx. exists (Z.to_nat (x - a)). split; [lia|].
    apply in_seq. lia.
Qed.

Lemma fold_add_acc (xs : list Z) (acc : Z) :
  fold_left Z.add xs acc = acc + fold_left Z.add xs 0.
Proof.
  revert acc. induction xs as [|x xs IH]; intros acc; cbn [fold_left]; [lia|].
  rewrite (IH (acc + x)), (IH (0 + x)). lia.
Qed.

Lemma py_sum_cons (x : Z) (xs : list Z) : py_sum (x :: xs) = x + py_sum xs.
Proof. unfold py_sum. simpl. apply fold_add_acc. Qed.

(** ** Comprehensions *)

Lemma comprehension_ok {A B : Type} (f : A -> result B) (g : A -> B)
      (ls : list A) :
  (forall x, In x ls -> f x = Ok (g x)) ->
  comprehension f ls = Ok (map g ls).
Proof.
  induction ls as [|l ls IH]; intros H; simpl; [reflexivity|].
  rewrite (H l) by (left; reflexivity). simpl.
  rewrite IH by (intros x Hx; apply H; right; exact Hx).
  reflexivity.
Qed.

Lemma comprehension_raise {A B : Type} (f : A -> result B) (ls : list A)
      (x : A) :
  In x ls -> f x = Raise IndexError ->
  comprehension f ls = Raise IndexError.
Proof.
  induction ls as [|l ls IH]; intros Hin Hx; [destruct Hin|].
  simpl. destruct (f l) as [y|[]] eqn:E; simpl; [|reflexivity].
  destruct Hin as [->|Hin]; [congruence|].
  rewrite (IH Hin Hx). reflexivity.
Qed.

(** A comprehension over [range(lo, hi)] whose elements are all defined
    returns a list whose sum is the mathematical sum. *)
Lemma comprehension_sigma (f : Z -> result Z) (g : nat -> Z) (cnt lo : nat) :
  (forall n : nat, (lo <= n < lo + cnt)%nat -> f (Z.of_nat n) = Ok (g n)) ->
  exists ys : list Z,
    comprehension f (py_range (Z.of_nat lo) (Z.of_nat (lo + cnt))) = Ok ys
    /\ py_sum ys = sigma_from lo cnt g.
Proof.
  revert lo. induction cnt as [|cnt IH]; intros lo H.
  - exists []. rewrite py_range_nil by lia. split; reflexivity.
  - destruct (IH (S lo)) as (ys & Hys & Hsum).
    { intros n Hn. apply H. lia. }
    exists (g lo :: ys). rewrite py_range_step by lia.
    replace (Z.of_nat lo + 1) with (Z.of_nat (S lo)) by lia.
    replace (lo + S cnt)%nat with (S lo + cnt)%nat by lia.
    cbn [comprehension]. rewrite (H lo) by lia. cbn [bind].
    rewrite Hys. cbn [bind]. split; [reflexivity|].
    rewrite py_sum_cons, Hsum. reflexivity.
Qed.

Lemma sigma_from_ext (f g : nat -> Z) (cnt lo : nat) :
  (forall n : nat, (lo <= n < lo + cnt)%nat -> f n = g n) ->
  sigma_from lo cnt f = sigma_from lo cnt g.
Proof.
  revert lo. induction cnt as [|cnt IH]; intros lo H; simpl; [reflexivity|].
  rewrite (H lo) by lia. f_equal. apply IH. intros n Hn. apply H. lia.
Qed.

Lemma sigma_from_le (f g : nat -> Z) (cnt lo : nat) :
  (forall n : nat, (lo <= n < lo + cnt)%nat -> f n <= g n) ->
  sigma_from lo cnt f <= sigma_from lo cnt g.
Proof.
  revert lo. induction cnt as [|cnt IH]; intros lo H; simpl; [lia|].
  assert (f lo <= g lo) by (apply H; lia).
  assert (sigma_from (S lo) cnt f <= sigma_from (S lo) cnt g).
  { apply IH. intros n Hn. apply H. lia. }
  lia.
Qed.

Lemma sigma_from_nonneg (f : nat -> Z) (cnt lo : nat) :
  (forall n : nat, (lo <= n < lo + cnt)%nat -> 0 <= f n) ->
  0 <= sigma_from lo cnt f.
Proof.
  revert lo. induction cnt as [|cnt IH]; intros lo H; simpl; [lia|].
  assert (0 <= f lo) by (apply H; lia).
  assert (0 <= sigma_from (S lo) cnt f).
  { apply IH. intros n Hn. apply H. lia. }
  lia.
Qed.

Lemma range1_comprehension (f : Z -> result Z) (g : nat -> Z) (b : Z) :
  (forall n : nat, (1 <= n)%nat -> Z.of_nat n < b -> f (Z.of_nat n) = Ok (g n)) ->
  exists ys : list Z,
    comprehension f (py_range 1 b) = Ok ys
    /\ py_sum ys = sigma_from 1 (Z.to_nat (b - 1)) g.
Proof.
  intros H.
  destruct (comprehension_sigma f g (Z.to_nat (b - 1)) 1) as (ys & E & Hs).
  { intros n Hn. apply H; lia. }
  exists ys. split; [|exact Hs].
  destruct (Z.le_gt_cases b 1) as [Hb|Hb].
  - rewrite py_range_nil in * by lia. exact E.
  - replace (Z.of_nat (1 + Z.to_nat (b - 1))) with b in E by lia. exact E.
Qed.

Lemma to_nat_pred (n : nat) : Z.to_nat (Z.of_nat n - 1) = (n - 1)%nat.
Proof. lia. Qed.

Lemma to_nat_succ (n : nat) : Z.to_nat (Z.of_nat n + 1) = (n + 1)%nat.
Proof. lia. Qed.

Lemma py_len_cons (x : Z) (I : list Z) : py_len (x :: I) = py_len I + 1.
Proof. unfold py_len. cbn [length]. lia. Qed.

(** Evaluates the comprehension over [range(1, b)] in the goal, given the
    closed form [g] of its elements. *)
Ltac eval_comprehension g ys Hsum :=
  match goal with
  | |- context [comprehension ?f (py_range 1 ?b)] =>
      let E := fresh "E" in
      destruct (range1_comprehension f g b) as (ys & E & Hsum);
      [ let n := fresh "n" in
        intros n ? ?; cbv beta;
        rewrite ?py_len_cons in *;
        rewrite !getitem_nonneg by (rewrite ?py_len_cons; unfold py_len in *; lia);
        cbn [bind]; rewrite ?Nat2Z.id, ?to_nat_pred, ?to_nat_succ; reflexivity
      | rewrite E; clear E; cbn [bind] ]
  end.

Ltac eval_last :=
  rewrite !getitem_neg by (unfold py_len in *; lia); cbn [bind].

(** ** The functions compute the closed formulas *)

Lemma last1_eq (I : list Z) :
  (1 <= length I)%nat -> width I (Z.to_nat (-1 + py_len I)) = last1 I.
Proof. intros H. unfold last1, py_len. f_equal. lia. Qed.

Lemma last2_eq (I : list Z) :
  (2 <= length I)%nat -> width I (Z.to_nat (-2 + py_len I)) = last2 I.
Proof. intros H. unfold last2, py_len. f_equal. lia. Qed.

Lemma count_interior (I : list Z) :
  Z.to_nat (py_len I - 1 - 1) = (S (length I - 2) - 1)%nat.
Proof. unfold py_len. lia. Qed.

Lemma count_all (I : list Z) :
  Z.to_nat (py_len I - 1) = (S (length I - 1) - 1)%nat.
Proof. unfold py_len. lia. Qed.

Lemma cvfnn_closed (I : list Z) :
  (2 <= length I)%nat -> cvfnn_complexity I = Ok (cvfnn_formula I).
Proof.
  intros HI. unfold cvfnn_complexity.
  eval_comprehension
    (fun l => width I l * (2 * width I (l - 1) + width I (l + 1) + 2)) ts Hts.
  eval_last.
  eval_comprehension (fun l => width I l * width I (l - 1)) us Hus.
  rewrite Hts, Hus, last1_eq, last2_eq, count_interior, count_all by lia.
  reflexivity.
Qed.

Lemma scfnn_closed (I : list Z) :
  (2 <= length I)%nat -> scfnn_complexity I = Ok (scfnn_formula I).
Proof.
  intros HI. unfold scfnn_complexity.
  eval_comprehension
    (fun l => width I l * (2 * width I (l - 1) + width I (l + 1) + 2)) ts Hts.
  eval_last.
  eval_comprehension (fun l => width I l * width I (l - 1)) us Hus.
  rewrite Hts, Hus, last1_eq, last2_eq, count_interior, count_all by lia.
  reflexivity.
Qed.

Lemma mlmvn_closed (I : list Z) :
  (2 <= length I)%nat -> mlmvn_complexity I = Ok (mlmvn_formula I).
Proof.
  intros HI. unfold mlmvn_complexity.
  eval_comprehension
    (fun l => width I l * (2 * width I (l - 1) + width I (l + 1) + 4)) ts Hts.
  eval_last.
  eval_comprehension (fun l => width I l * (width I (l - 1) + 1)) us Hus.
  rewrite Hts, Hus, last1_eq, last2_eq, count_interior, count_all by lia.
  reflexivity.
Qed.

Lemma ptrbf_closed (I O : list Z) :
  (length I + 1 <= length O)%nat ->
  ptrbf_complexity I O = Ok (ptrbf_formula I O).
Proof.
  intros HO. unfold ptrbf_complexity. cbn [app]. cbv zeta.
  eval_comprehension
    (fun l => width (0 :: I) l * (width O (l - 1) + 3 * width O l + 3)) ts Hts.
  eval_comprehension
    (fun l => width O l * (width (0 :: I) (l + 1) + 1)) vs Hvs.
  eval_last.
  eval_comprehension
    (fun l => width (0 :: I) l * (width O (l - 1) + 2 * width O l + 1)) us Hus.
  rewrite Hts, Hvs, Hus, last1_eq, count_interior, count_all by lia.
  reflexivity.
Qed.

(** ** When a call raises *)

Lemma feedforward_raise (I : list Z) :
  (length I < 2)%nat ->
  cvfnn_complexity I = Raise IndexError
  /\ scfnn_complexity I = Raise IndexError
  /\ mlmvn_complexity I = Raise IndexError.
Proof.
  intros HI. destruct I as [|x [|y I]]; cbn [length] in HI; [| |lia];
    repeat split; reflexivity.
Qed.

Lemma ptrbf_raise (I O : list Z) :
  (length O < length I + 1)%nat -> ptrbf_complexity I O = Raise IndexError.
Proof.
  intros HO. unfold ptrbf_complexity. cbn [app]. cbv zeta.
  destruct I as [|i I].
  - destruct O; cbn [length] in HO; [reflexivity|lia].
  - rewrite (comprehension_raise _ _ (Z.max 1 (py_len O))); [reflexivity| |].
    + apply in_py_range. rewrite !py_len_cons. unfold py_len.
      cbn [length] in HO. lia.
    + cbv beta. rewrite getitem_nonneg
        by (rewrite !py_len_cons; unfold py_len; cbn [length] in HO; lia).
      cbn [bind]. destruct O as [|o O].
      * reflexivity.
      * rewrite (getitem_nonneg (o :: O))
          by (rewrite !py_len_cons; unfold py_len; lia).
        cbn [bind]. rewrite getitem_raise; [reflexivity|].
        right. rewrite !py_len_cons. unfold py_len. lia.
Qed.

(** ** The pointwise order on layer widths *)

Lemma width_lookup (I : list Z) (l : nat) : width I l = default 0 (I !! l).
Proof. unfold width. apply nth_lookup. Qed.

Lemma nonneg_width (I : list Z) (l : nat) : nonneg I -> 0 <= width I l.
Proof.
  intros HI. rewrite width_lookup.
  destruct (I !! l) as [x|] eqn:E; cbn [default]; [|lia].
  unfold nonneg in HI. rewrite Forall_lookup in HI. exact (HI l x E).
Qed.

Lemma nonneg_cons (x : Z) (I : list Z) : 0 <= x -> nonneg I -> nonneg (x :: I).
Proof. intros Hx HI. apply Forall_cons. split; assumption. Qed.

Lemma dominated_refl (I : list Z) : dominated I I.
Proof. split; [reflexivity|]. intros l. lia. Qed.

Lemma dominated_cons (x : Z) (I J : list Z) :
  dominated I J -> dominated (x :: I) (x :: J).
Proof.
  intros [Hlen Hw]. split; [cbn [length]; lia|].
  intros [|l]; unfold width in *; cbn [nth]; [lia|apply Hw].
Qed.

Lemma length_widen (k : nat) (d : Z) (I : list Z) :
  length (widen k d I) = length I.
Proof. unfold widen. apply length_alter. Qed.

Lemma width_widen (k : nat) (d : Z) (I : list Z) (l : nat) :
  width (widen k d I) l
  = if decide (l = k /\ (k < length I)%nat) then width I l + d else width I l.
Proof.
  rewrite !width_lookup. unfold widen.
  destruct (decide (l = k)) as [->|Hne].
  - rewrite list_lookup_alter_eq.
    destruct (I !! k) as [x|] eqn:E; cbn [fmap option_fmap option_map default].
    + apply lookup_lt_Some in E. rewrite decide_True by (split; [reflexivity|lia]).
      reflexivity.
    + apply lookup_ge_None in E. rewrite decide_False by lia. reflexivity.
  - rewrite list_lookup_alter_ne by congruence.
    rewrite decide_False by (intros [? _]; congruence). reflexivity.
Qed.

Lemma widen_dominated (k : nat) (d : Z) (I : list Z) :
  0 <= d -> dominated I (widen k d I).
Proof.
  intros Hd. split; [symmetry; apply length_widen|].
  intros l. rewrite width_widen. destruct (decide _); lia.
Qed.

Lemma widen_nonneg (k : nat) (d : Z) (I : list Z) :
  0 <= d -> nonneg I -> nonneg (widen k d I).
Proof.
  intros Hd HI. unfold nonneg, widen. rewrite Forall_lookup. intros l x E.
  destruct (decide (l = k)) as [->|Hne].
  - rewrite list_lookup_alter_eq in E.
    destruct (I !! k) as [y|] eqn:Ey; cbn in E; [|discriminate].
    injection E as <-. unfold nonneg in HI. rewrite Forall_lookup in HI.
    specialize (HI k y Ey). cbv beta in HI. lia.
  - rewrite list_lookup_alter_ne in E by congruence.
    unfold nonneg in HI. rewrite Forall_lookup in HI. exact (HI l x E).
Qed.

(** ** The formulas are monotone and non-negative on natural widths *)

Section Formulas.

Variables I J : list Z.
Hypothesis I_nonneg : nonneg I.
Hypothesis I_le_J : dominated I J.

Local Lemma wI (l : nat) : 0 <= width I l.
Proof. apply nonneg_width, I_nonneg. Qed.

Local Lemma wIJ (l : nat) : width I l <= width J l.
Proof. apply I_le_J. Qed.

Local Lemma lenIJ : length J = length I.
Proof. symmetry. apply I_le_J. Qed.

Lemma interior_sum_mono (bias : Z) :
  0 <= bias -> interior_sum bias I <= interior_sum bias J.
Proof.
  intros Hb. unfold interior_sum, sigma. rewrite lenIJ.
  apply sigma_from_le. intros l _.
  pose proof (wI l). pose proof (wI (l - 1)). pose proof (wI (l + 1)).
  pose proof (wIJ l). pose proof (wIJ (l - 1)). pose proof (wIJ (l + 1)).
  apply Z.mul_le_mono_nonneg; lia.
Qed.

Lemma interior_sum_nonneg (bias : Z) : 0 <= bias -> 0 <= interior_sum bias I.
Proof.
  intros Hb. unfold interior_sum, sigma.
  apply sigma_from_nonneg. intros l _.
  pose proof (wI l). pose proof (wI (l - 1)). pose proof (wI (l + 1)).
  apply Z.mul_nonneg_nonneg; lia.
Qed.

Lemma last_mono :
  0 <= last1 I <= last1 J /\ 0 <= last2 I <= last2 J.
Proof.
  unfold last1, last2. rewrite lenIJ.
  pose proof (wI (length I - 1)). pose proof (wI (length I - 2)).
  pose proof (wIJ (length I - 1)). pose proof (wIJ (length I - 2)).
  lia.
Qed.

Lemma cvfnn_formula_mono : pair_le (cvfnn_formula I) (cvfnn_formula J).
Proof.
  pose proof (interior_sum_mono 2 ltac:(lia)) as Hs.
  destruct last_mono as [Hx Hy].
  unfold pair_le, cvfnn_formula. cbn [fst snd]. split.
  - assert (last1 I * (last2 I + 1) <= last1 J * (last2 J + 1))
      by (apply Z.mul_le_mono_nonneg; lia).
    lia.
  - apply Z.mul_le_mono_nonneg_l; [lia|]. unfold sigma. rewrite lenIJ.
    apply sigma_from_le. intros l _.
    pose proof (wI l). pose proof (wI (l - 1)).
    pose proof (wIJ l). pose proof (wIJ (l - 1)).
    apply Z.mul_le_mono_nonneg; lia.
Qed.

Lemma scfnn_formula_mono : pair_le (scfnn_formula I) (scfnn_formula J).
Proof.
  pose proof (interior_sum_mono 2 ltac:(lia)) as Hs.
  destruct last_mono as [Hx Hy].
  unfold pair_le, scfnn_formula. cbn [fst snd]. split.
  - assert (last1 I * (4 * last2 I + 3) <= last1 J * (4 * last2 J + 3))
      by (apply Z.mul_le_mono_nonneg; lia).
    lia.
  - exact (proj2 cvfnn_formula_mono).
Qed.

Lemma mlmvn_formula_mono : pair_le (mlmvn_formula I) (mlmvn_formula J).
Proof.
  pose proof (interior_sum_mono 4 ltac:(lia)) as Hs.
  destruct last_mono as [Hx Hy].
  unfold pair_le, mlmvn_formula. cbn [fst snd]. split.
  - assert (last1 I * (2 * last2 I + 3) <= last1 J * (2 * last2 J + 3))
      by (apply Z.mul_le_mono_nonneg; lia).
    lia.
  - apply Z.mul_le_mono_nonneg_l; [lia|]. unfold sigma. rewrite lenIJ.
    apply sigma_from_le. intros l _.
    pose proof (wI l). pose proof (wI (l - 1)).
    pose proof (wIJ l). pose proof (wIJ (l - 1)).
    apply Z.mul_le_mono_nonneg; lia.
Qed.

Lemma cvfnn_formula_nonneg : pair_nonneg (cvfnn_formula I).
Proof.
  pose proof (interior_sum_nonneg 2 ltac:(lia)) as Hs.
  destruct last_mono as [Hx Hy].
  unfold pair_nonneg, cvfnn_formula. cbn [fst snd]. split.
  - assert (0 <= last1 I * (last2 I + 1))
      by (apply Z.mul_nonneg_nonneg; lia).
    lia.
  - apply Z.mul_nonneg_nonneg; [lia|]. unfold sigma.
    apply sigma_from_nonneg. intros l _.
    pose proof (wI l). pose proof (wI (l - 1)).
    apply Z.mul_nonneg_nonneg; lia.
Qed.

Lemma scfnn_formula_nonneg : pair_nonneg (scfnn_formula I).
Proof.
  pose proof (interior_sum_nonneg 2 ltac:(lia)) as Hs.
  destruct last_mono as [Hx Hy].
  unfold pair_nonneg, scfnn_formula. cbn [fst snd]. split.
  - assert (0 <= last1 I * (4 * last2 I + 3))
      by (apply Z.mul_nonneg_nonneg; lia).
    lia.
  - exact (proj2 cvfnn_formula_nonneg).
Qed.

Lemma mlmvn_formula_nonneg : pair_nonneg (mlmvn_formula I).
Proof.
  pose proof (interior_sum_nonneg 4 ltac:(lia)) as Hs.
  destruct last_mono as [Hx Hy].
  unfold pair_nonneg, mlmvn_formula. cbn [fst snd]. split.
  - assert (0 <= last1 I * (2 * last2 I + 3))
      by (apply Z.mul_nonneg_nonneg; lia).
    lia.
  - apply Z.mul_nonneg_nonneg; [lia|]. unfold sigma.
    apply sigma_from_nonneg. intros l _.
    pose proof (wI l). pose proof (wI (l - 1)).
    apply Z.mul_nonneg_nonneg; lia.
Qed.

(** PT-RBF: [I], [J] are neuron counts and [O], [P] output counts. *)
Variables O P : list Z.
Hypothesis O_nonneg : nonneg O.
Hypothesis O_le_P : dominated O P.

Local Lemma wO (l : nat) : 0 <= width O l.
Proof. apply nonneg_width, O_nonneg. Qed.

Local Lemma wOP (l : nat) : width O l <= width P l.
Proof. apply O_le_P. Qed.

Local Lemma w0I (l : nat) : 0 <= width (0 :: I) l.
Proof. apply nonneg_width, nonneg_cons; [lia|exact I_nonneg]. Qed.

Local Lemma w0IJ (l : nat) : width (0 :: I) l <= width (0 :: J) l.
Proof. apply dominated_cons, I_le_J. Qed.

Lemma ptrbf_formula_mono : pair_le (ptrbf_formula I O) (ptrbf_formula J P).
Proof.
  unfold pair_le, ptrbf_formula, sigma, last1. cbv zeta.
  cbn [fst snd length]. rewrite lenIJ.
  replace (length P) with (length O) by apply O_le_P.
  pose proof (wO (length O - 1)). pose proof (wOP (length O - 1)).
  split.
  - apply Z.add_le_mono; [apply Z.add_le_mono|lia];
      (apply Z.mul_le_mono_nonneg_l; [lia|]); apply sigma_from_le; intros l _.
    + pose proof (w0I l). pose proof (wO (l - 1)). pose proof (wO l).
      pose proof (w0IJ l). pose proof (wOP (l - 1)). pose proof (wOP l).
      apply Z.mul_le_mono_nonneg; lia.
    + pose proof (w0I (l + 1)). pose proof (wO l).
      pose proof (w0IJ (l + 1)). pose proof (wOP l).
      apply Z.mul_le_mono_nonneg; lia.
  - apply Z.mul_le_mono_nonneg_l; [lia|]. apply sigma_from_le. intros l _.
    pose proof (w0I l). pose proof (wO (l - 1)). pose proof (wO l).
    pose proof (w0IJ l). pose proof (wOP (l - 1)). pose proof (wOP l).
    apply Z.mul_le_mono_nonneg; lia.
Qed.

Lemma ptrbf_formula_nonneg : pair_nonneg (ptrbf_formula I O).
Proof.
  unfold pair_nonneg, ptrbf_formula, sigma, last1. cbv zeta.
  cbn [fst snd length].
  pose proof (wO (length O - 1)).
  split.
  - apply Z.add_nonneg_nonneg; [apply Z.add_nonneg_nonneg|lia];
      (apply Z.mul_nonneg_nonneg; [lia|]); apply sigma_from_nonneg;
      intros l _.
    + pose proof (w0I l). pose proof (wO (l - 1)). pose proof (wO l).
      apply Z.mul_nonneg_nonneg; lia.
    + pose proof (w0I (l + 1)). pose proof (wO l).
      apply Z.mul_nonneg_nonneg; lia.
  - apply Z.mul_nonneg_nonneg; [lia|]. apply sigma_from_nonneg. intros l _.
    pose proof (w0I l). pose proof (wO (l - 1)). pose proof (wO l).
    apply Z.mul_nonneg_nonneg; lia.
Qed.

End Formulas.

(** ** What a call leaves untouched in the heap *)

Module HeapFacts.
Import Heap.

Lemma preserves_refl (h : heap) : preserves h h.
Proof. intros q _. reflexivity. Qed.

Lemma preserves_trans (h1 h2 h3 : heap) :
  preserves h1 h2 -> preserves h2 h3 -> preserves h1 h3.
Proof.
  intros H12 H23 q Hq. rewrite <- (H12 q Hq). apply H23.
  rewrite (H12 q Hq). exact Hq.
Qed.

Lemma fresh_unused (h : heap) : h !! fresh (dom h) = None.
Proof. apply not_elem_of_dom. apply is_fresh. Qed.

Lemma preserves_alloc (h : heap) (xs : list Z) :
  preserves h (<[fresh (dom h) := xs]> h).
Proof.
  intros q Hq. apply lookup_insert_ne. intros <-.
  rewrite fresh_unused in Hq. destruct Hq as [? Hq]. discriminate.
Qed.

(** Changing an object that did not exist in [h0] keeps [h0]'s objects. *)
Lemma preserves_alter (h0 h : heap) (p : loc) (g : list Z -> list Z) :
  h0 !! p = None -> preserves h0 h -> preserves h0 (alter g p h).
Proof.
  intros Hp H q Hq. rewrite lookup_alter_ne; [apply H, Hq|].
  intros <-. rewrite Hp in Hq. destruct Hq as [? Hq]. discriminate.
Qed.

Lemma framed_ret {A : Type} (a : A) : framed (ret a).
Proof. intros h. apply preserves_refl. Qed.

Lemma framed_lift {A : Type} (r : result A) : framed (lift r).
Proof. intros h. apply preserves_refl. Qed.

Lemma framed_contents (p : loc) : framed (contents p).
Proof. intros h. apply preserves_refl. Qed.

Lemma framed_new_list (xs : list Z) : framed (new_list xs).
Proof. intros h. apply preserves_alloc. Qed.

Lemma framed_bind {A B : Type} (m : M A) (f : A -> M B) :
  framed m -> (forall a : A, framed (f a)) -> framed (bindM m f).
Proof.
  intros Hm Hf h. unfold bindM. specialize (Hm h).
  destruct (m h) as [[a|e] h1]; cbn [snd] in *; [|exact Hm].
  eapply preserves_trans; [exact Hm|apply Hf].
Qed.

Create HintDb framed.
#[local] Hint Resolve framed_ret framed_lift framed_contents framed_new_list
  : framed.
#[local] Hint Extern 2 (framed (bindM _ _)) =>
  apply framed_bind; [|intros ?] : framed.

Lemma framed_list_add (p q : loc) : framed (list_add p q).
Proof. unfold list_add. auto with framed. Qed.

Lemma framed_list_len (p : loc) : framed (list_len p).
Proof. unfold list_len. auto with framed. Qed.

Lemma framed_list_getitem (p : loc) (k : Z) : framed (list_getitem p k).
Proof. unfold list_getitem. auto with framed. Qed.

Lemma framed_list_sum (p : loc) : framed (list_sum p).
Proof. unfold list_sum. auto with framed. Qed.

(** The loop appends to [p] only: what existed before [p] was created is
    kept. *)
Lemma fill_preserves (p : loc) (f : Z -> M Z) (h0 : heap) (ls : list Z) :
  (forall l : Z, framed (f l)) -> h0 !! p = None ->
  forall h : heap, preserves h0 h -> preserves h0 (snd (fill p f ls h)).
Proof.
  intros Hf Hp. induction ls as [|l ls IH]; intros h Hh; cbn [fill].
  - exact Hh.
  - unfold bindM at 1. pose proof (Hf l h) as Hl.
    destruct (f l h) as [[y|e] h1]; cbn [snd] in *.
    + unfold bindM at 1. unfold list_append at 1. apply IH.
      apply preserves_alter; [exact Hp|].
      eapply preserves_trans; [exact Hh|exact Hl].
    + eapply preserves_trans; [exact Hh|exact Hl].
Qed.

Lemma framed_list_comprehension (f : Z -> M Z) (ls : list Z) :
  (forall l : Z, framed (f l)) -> framed (list_comprehension f ls).
Proof.
  intros Hf h. unfold list_comprehension, bindM at 1, new_list at 1.
  unfold bindM at 1.
  pose proof (fill_preserves (fresh (dom h)) f h ls Hf (fresh_unused h)
                (<[fresh (dom h) := []]> h) (preserves_alloc h [])) as H.
  destruct (fill _ f ls _) as [[u|e] h1]; cbn [snd ret] in *; exact H.
Qed.

#[local] Hint Resolve framed_list_add framed_list_len framed_list_getitem
  framed_list_sum : framed.
#[local] Hint Extern 2 (framed (list_comprehension _ _)) =>
  apply framed_list_comprehension; intros ? : framed.

Lemma framed_ptrbf_complexity (I O : loc) : framed (ByReference.ptrbf_complexity I O).
Proof. unfold ByReference.ptrbf_complexity. auto 40 with framed. Qed.

(** An in-place insert is seen through every reference to the list: the
    heap model keeps the difference between [I.insert(0, 0)] and
    [[0] + I]. *)
Lemma list_insert_visible (p : loc) (xs : list Z) (h : heap) :
  h !! p = Some xs ->
  snd (list_insert p 0 0 h) !! p = Some (0 :: xs).
Proof.
  intros Hp. unfold list_insert. cbn [snd].
  rewrite lookup_alter_eq, Hp. reflexivity.
Qed.

(** *** The heap-level function computes what the list-level one does *)

Lemma bindM_ok {A B : Type} (m : M A) (f : A -> M B) (h h' : heap) (a : A) :
  m h = (Ok a, h') -> bindM m f h = f a h'.
Proof. intros E. unfold bindM. rewrite E. reflexivity. Qed.

Lemma bindM_raise {A B : Type} (m : M A) (f : A -> M B) (h h' : heap)
      (e : exn) :
  m h = (Raise e, h') -> bindM m f h = (Raise e, h').
Proof. intros E. unfold bindM. rewrite E. reflexivity. Qed.

Lemma list_add_run (p q : loc) (xs ys : list Z) (h : heap) :
  h !! p = Some xs -> h !! q = Some ys ->
  list_add p q h = (Ok (fresh (dom h)), <[fresh (dom h) := xs ++ ys]> h).
Proof.
  intros Hp Hq. unfold list_add, bindM, contents, new_list.
  rewrite Hp, Hq. reflexivity.
Qed.

Lemma list_len_run (p : loc) (xs : list Z) (h : heap) :
  h !! p = Some xs -> list_len p h = (Ok (py_len xs), h).
Proof.
  intros Hp. unfold list_len, bindM, contents, ret. rewrite Hp. reflexivity.
Qed.

Lemma list_sum_run (p : loc) (xs : list Z) (h : heap) :
  h !! p = Some xs -> list_sum p h = (Ok (py_sum xs), h).
Proof.
  intros Hp. unfold list_sum, bindM, contents, ret. rewrite Hp. reflexivity.
Qed.

Lemma list_getitem_run (p : loc) (xs : list Z) (k : Z) (h : heap) :
  h !! p = Some xs -> list_getitem p k h = (getitem xs k, h).
Proof.
  intros Hp. unfold list_getitem, bindM, contents, lift. rewrite Hp.
  reflexivity.
Qed.

(** The loop, started with [acc] already in the new list [p], on elements
    [f l] that read the heap as [g l] does the lists. *)
Lemma fill_run (p : loc) (f : Z -> M Z) (g : Z -> result Z) (h0 : heap) :
  h0 !! p = None ->
  (forall (l : Z) (h : heap), preserves h0 h -> f l h = (g l, h)) ->
  forall (ls acc : list Z) (h : heap),
    preserves h0 h -> h !! p = Some acc ->
    exists h' : heap,
      preserves h0 h'
      /\ match comprehension g ls with
         | Ok ys => fill p f ls h = (Ok tt, h') /\ h' !! p = Some (acc ++ ys)
         | Raise e => fill p f ls h = (Raise e, h')
         end.
Proof.
  intros Hp Hf. induction ls as [|l ls IH]; intros acc h Hh Hacc.
  - exists h. split; [exact Hh|]. cbn [comprehension fill].
    rewrite app_nil_r. split; [reflexivity|exact Hacc].
  - assert (Estep : fill p f (l :: ls) h
                    = match g l with
                      | Ok y => fill p f ls (alter (fun xs => xs ++ [y]) p h)
                      | Raise e => (Raise e, h)
                      end).
    { cbn [fill]. unfold bindM at 1. rewrite (Hf l h Hh).
      destruct (g l); reflexivity. }
    rewrite Estep. clear Estep. cbn [comprehension].
    destruct (g l) as [y|e]; cbn [bind].
    + destruct (IH (acc ++ [y]) (alter (fun xs => xs ++ [y]) p h))
        as (h' & Hh' & Hrun).
      { apply preserves_alter; assumption. }
      { rewrite lookup_alter_eq, Hacc. reflexivity. }
      exists h'. split; [exact Hh'|].
      destruct (comprehension g ls) as [ys|e]; cbn [bind].
      * rewrite <- app_assoc in Hrun. exact Hrun.
      * exact Hrun.
    + exists h. split; [exact Hh|reflexivity].
Qed.

Lemma list_comprehension_run (f : Z -> M Z) (g : Z -> result Z) (h : heap)
      (ls : list Z) :
  (forall (l : Z) (h' : heap), preserves h h' -> f l h' = (g l, h')) ->
  exists h' : heap,
    preserves h h'
    /\ match comprehension g ls with
       | Ok ys => exists p : loc,
           list_comprehension f ls h = (Ok p, h') /\ h' !! p = Some ys
       | Raise e => list_comprehension f ls h = (Raise e, h')
       end.
Proof.
  intros Hf.
  destruct (fill_run (fresh (dom h)) f g h (fresh_unused h) Hf ls []
              (<[fresh (dom h) := []]> h)) as (h' & Hh' & Hrun).
  { apply preserves_alloc. }
  { apply lookup_insert_eq. }
  exists h'. split; [exact Hh'|].
  assert (Estep : list_comprehension f ls h
                  = bindM (fill (fresh (dom h)) f ls)
                          (fun _ => ret (fresh (dom h)))
                          (<[fresh (dom h) := []]> h)) by reflexivity.
  rewrite Estep. clear Estep.
  destruct (comprehension g ls) as [ys|e].
  - destruct Hrun as [Hrun Hp]. exists (fresh (dom h)).
    rewrite (bindM_ok _ _ _ _ _ Hrun). split; [reflexivity|exact Hp].
  - rewrite (bindM_raise _ _ _ _ _ Hrun). reflexivity.
Qed.

Section Refinement.

Variables (pI pO : loc) (I O : list Z) (h : heap).
Hypothesis live_I : h !! pI = Some I.
Hypothesis live_O : h !! pO = Some O.

(** The list [[0]] and then [[0] + I] are created. *)
Let z : loc := fresh (dom h).
Let h1 : heap := <[z := [0]]> h.
Let pJ : loc := fresh (dom h1).
Let h2 : heap := <[pJ := [0] ++ I]> h1.

Local Lemma h2_keeps : preserves h h2.
Proof.
  eapply preserves_trans; [apply preserves_alloc|]. apply preserves_alloc.
Qed.

Local Lemma later_J (h' : heap) :
  preserves h2 h' -> h' !! pJ = Some ([0] ++ I).
Proof.
  intros H. rewrite H; [apply lookup_insert_eq|].
  unfold h2. rewrite lookup_insert_eq. eexists. reflexivity.
Qed.

Local Lemma later_O (h' : heap) : preserves h2 h' -> h' !! pO = Some O.
Proof.
  intros H.
  rewrite (preserves_trans _ _ _ h2_keeps H); [exact live_O|].
  rewrite live_O. eexists. reflexivity.
Qed.

Local Lemma prologue (k : loc -> M (Z * Z)) :
  bindM (new_list [0]) (fun z => bindM (list_add z pI) k) h = k pJ h2.
Proof.
  rewrite (bindM_ok _ _ h h1 z) by reflexivity.
  apply bindM_ok. apply list_add_run.
  - apply lookup_insert_eq.
  - rewrite <- live_I. apply (preserves_alloc h [0] pI).
    rewrite live_I. eexists. reflexivity.
Qed.

(** Runs the comprehension at the head of both sides; the goal that
    remains is the one where it returned. *)
Ltac run_comprehension hnew Hnew :=
  match goal with
  | Hold : preserves h2 ?h0
    |- fst (bindM (list_comprehension ?f ?ls) _ ?h0)
       = bind (comprehension ?g ?ls) _ =>
      let Hrun := fresh "Hrun" in
      let p := fresh "p" in
      let Hp := fresh "Hp" in
      destruct (list_comprehension_run f g h0 ls) as (hnew & Hnew & Hrun);
      [ let l := fresh "l" in
        let h' := fresh "h'" in
        let H' := fresh "H'" in
        intros l h' H';
        pose proof (later_J h' (preserves_trans _ _ _ Hold H'));
        pose proof (later_O h' (preserves_trans _ _ _ Hold H'));
        unfold bindM;
        repeat (erewrite list_getitem_run by eassumption;
                match goal with
                | |- context [getitem ?xs ?k] =>
                    destruct (getitem xs k); cbn [bind]; [|reflexivity]
                end);
        reflexivity
      | destruct (comprehension g ls) as [?ys|?e]; cbn [bind];
        [ destruct Hrun as (p & Hrun & Hp);
          rewrite (bindM_ok _ _ _ _ _ Hrun);
          rewrite (bindM_ok _ _ _ _ _ (list_sum_run _ _ _ Hp));
          apply (preserves_trans _ _ _ Hold) in Hnew
        | rewrite (bindM_raise _ _ _ _ _ Hrun); reflexivity ] ]
  end.

Lemma ptrbf_complexity_run :
  fst (ByReference.ptrbf_complexity pI pO h) = ptrbf_complexity I O.
Proof.
  unfold ByReference.ptrbf_complexity, ptrbf_complexity. cbv zeta.
  rewrite prologue.
  pose proof (preserves_refl h2) as H2.
  rewrite (bindM_ok _ _ _ _ _ (list_len_run _ _ _ (later_J _ H2))).
  run_comprehension h3 H3.
  rewrite (bindM_ok _ _ _ _ _ (list_len_run _ _ _ (later_J _ H3))).
  run_comprehension h4 H4.
  pose proof (list_getitem_run pO O (-1) h4 (later_O _ H4)) as Hlast.
  destruct (getitem O (-1)) as [y|e]; cbn [bind];
    [rewrite (bindM_ok _ _ _ _ _ Hlast)
    |rewrite (bindM_raise _ _ _ _ _ Hlast); reflexivity].
  rewrite (bindM_ok _ _ _ _ _ (list_len_run _ _ _ (later_J _ H4))).
  run_comprehension h5 H5.
  reflexivity.
Qed.

End Refinement.

End HeapFacts.

(** * The claims *)

(** C1.  The six examples of the docstrings: [cvfnn_complexity([6, 97, 3])]
    returns [(8948, 3492)], [scfnn_complexity([6, 97, 3])] returns
    [(8942, 3492)], [mlmvn_complexity([6, 97, 3])] returns [(9736, 3892)],
    [crbf_complexity(6, 100, 3)] returns [(4712, 1900)],
    [fcrbf_complexity(6, 100, 3)] returns [(12012, 3600)] and
    [ptrbf_complexity([50, 50], [6, 50, 3])] returns [(54412, 16400)]. *)
Theorem literal_scenarios :
  cvfnn_complexity [6; 97; 3] = Ok (8948, 3492)
  /\ scfnn_complexity [6; 97; 3] = Ok (8942, 3492)
  /\ mlmvn_complexity [6; 97; 3] = Ok (9736, 3892)
  /\ crbf_complexity 6 100 3 = (4712, 1900)
  /\ fcrbf_complexity 6 100 3 = (12012, 3600)
  /\ ptrbf_complexity [50; 50] [6; 50; 3] = Ok (54412, 16400).
Proof. repeat split; reflexivity. Qed.

(** C2.  For every list [I] of non-negative integers with at least three
    entries, [cvfnn_complexity(I)] returns [(t, i)] where [t] is 4 times
    the sum over the interior layers [l = 1 .. len(I)-2] of
    [I[l]*(2*I[l-1] + I[l+1] + 2)], plus [8*I[-1]*(I[-2]+1)], and [i] is
    4 times the sum over [l = 1 .. len(I)-1] of [I[l]*I[l-1]]. *)
Theorem cvfnn_complexity_formula (I : list Z) :
  nonneg I -> (3 <= length I)%nat ->
  cvfnn_complexity I
  = Ok (4 * sigma 1 (length I - 2)
              (fun l => width I l * (2 * width I (l - 1) + width I (l + 1) + 2))
        + 8 * last1 I * (last2 I + 1),
        4 * sigma 1 (length I - 1) (fun l => width I l * width I (l - 1))).
Proof. intros _ HI. apply cvfnn_closed. lia. Qed.

Lemma cvfnn_complexity_formula_witness :
  cvfnn_complexity [6; 97; 3]
  = Ok (4 * sigma 1 1
              (fun l => width [6; 97; 3] l
                        * (2 * width [6; 97; 3] (l - 1)
                           + width [6; 97; 3] (l + 1) + 2))
        + 8 * 3 * (97 + 1),
        4 * sigma 1 2
              (fun l => width [6; 97; 3] l * width [6; 97; 3] (l - 1))).
Proof.
  apply (cvfnn_complexity_formula [6; 97; 3]).
  - repeat constructor; lia.
  - simpl; lia.
Defined.

(** C3.  For lists [I] (neurons per layer) and [O] (outputs per layer,
    starting with the input width) of non-negative integers with
    [len(O) = len(I) + 1], [ptrbf_complexity(I, O)] works on
    [J = [0] + I] and returns the training cost
    [4 * sum(J[l]*(O[l-1] + 3*O[l] + 3), l = 1 .. len(J)-1)
     + 4 * sum(O[l]*(J[l+1] + 1), l = 1 .. len(J)-2) + 4*O[-1]]
    and the inference cost
    [2 * sum(J[l]*(O[l-1] + 2*O[l] + 1), l = 1 .. len(J)-1)]. *)
Theorem ptrbf_complexity_formula (I O : list Z) :
  nonneg I -> nonneg O -> length O = (length I + 1)%nat ->
  let J := 0 :: I in
  ptrbf_complexity I O
  = Ok (4 * sigma 1 (length J - 1)
              (fun l => width J l * (width O (l - 1) + 3 * width O l + 3))
        + 4 * sigma 1 (length J - 2)
              (fun l => width O l * (width J (l + 1) + 1))
        + 4 * last1 O,
        2 * sigma 1 (length J - 1)
              (fun l => width J l * (width O (l - 1) + 2 * width O l + 1))).
Proof. intros _ _ HO. apply ptrbf_closed. lia. Qed.

Lemma ptrbf_complexity_formula_witness :
  let J := [0; 50; 50] in
  let O := [6; 50; 3] in
  ptrbf_complexity [50; 50] O
  = Ok (4 * sigma 1 2
              (fun l => width J l * (width O (l - 1) + 3 * width O l + 3))
        + 4 * sigma 1 1 (fun l => width O l * (width J (l + 1) + 1))
        + 4 * 3,
        2 * sigma 1 2
              (fun l => width J l * (width O (l - 1) + 2 * width O l + 1))).
Proof.
  apply (ptrbf_complexity_formula [50; 50] [6; 50; 3]).
  - repeat constructor; lia.
  - repeat constructor; lia.
  - reflexivity.
Defined.

(** C4, as stated, fails: with no output neuron the two training costs
    coincide. *)
Lemma training_costs_coincide :
  nonneg [6; 97; 0] /\ (2 <= length [6; 97; 0])%nat
  /\ cvfnn_complexity [6; 97; 0] = Ok (5432, 2328)
  /\ scfnn_complexity [6; 97; 0] = Ok (5432, 2328).
Proof.
  split; [repeat constructor; lia|].
  split; [simpl; lia|].
  split; reflexivity.
Qed.

(** C4, amended.  For every list [I] of non-negative integers with at
    least two entries, [cvfnn_complexity(I)] and [scfnn_complexity(I)]
    return the same inference cost, 4 times the sum over
    [l = 1 .. len(I)-1] of [I[l]*I[l-1]]; their training costs differ
    exactly when the output width [I[-1]] is not zero. *)
Theorem cvfnn_scfnn_inference (I : list Z) :
  nonneg I -> (2 <= length I)%nat ->
  exists tc ts i : Z,
    cvfnn_complexity I = Ok (tc, i)
    /\ scfnn_complexity I = Ok (ts, i)
    /\ i = 4 * sigma 1 (length I - 1) (fun l => width I l * width I (l - 1))
    /\ getitem I (-1) = Ok (last1 I)
    /\ (tc <> ts <-> last1 I <> 0).
Proof.
  intros _ HI. rewrite cvfnn_closed, scfnn_closed by exact HI.
  eexists _, _, _. repeat split.
  - rewrite getitem_neg by (unfold py_len; lia). rewrite last1_eq by lia.
    reflexivity.
  - intros H E. apply H. rewrite E. lia.
  - intros H E. apply H. lia.
Qed.

Lemma cvfnn_scfnn_inference_witness :
  exists tc ts i : Z,
    cvfnn_complexity [6; 97; 3] = Ok (tc, i)
    /\ scfnn_complexity [6; 97; 3] = Ok (ts, i)
    /\ i = 4 * sigma 1 2
                 (fun l => width [6; 97; 3] l * width [6; 97; 3] (l - 1))
    /\ getitem [6; 97; 3] (-1) = Ok 3
    /\ (tc <> ts <-> 3 <> 0).
Proof.
  apply (cvfnn_scfnn_inference [6; 97; 3]).
  - repeat constructor; lia.
  - simpl; lia.
Defined.

(** Widening one layer of a list that a function accepts. *)
Lemma feedforward_widen_le (k : nat) (d : Z) (I : list Z) :
  0 <= d -> nonneg I -> (2 <= length I)%nat ->
  cost_le (cvfnn_complexity I) (cvfnn_complexity (widen k d I))
  /\ cost_le (scfnn_complexity I) (scfnn_complexity (widen k d I))
  /\ cost_le (mlmvn_complexity I) (mlmvn_complexity (widen k d I)).
Proof.
  intros Hd HI Hlen. pose proof (widen_dominated k d I Hd) as Hdom.
  rewrite !cvfnn_closed, !scfnn_closed, !mlmvn_closed
    by (rewrite ?length_widen; exact Hlen).
  cbn [cost_le]. repeat split.
  - apply cvfnn_formula_mono; assumption.
  - apply cvfnn_formula_mono; assumption.
  - apply scfnn_formula_mono; assumption.
  - apply scfnn_formula_mono; assumption.
  - apply mlmvn_formula_mono; assumption.
  - apply mlmvn_formula_mono; assumption.
Qed.

Lemma ptrbf_widen_le (k : nat) (d : Z) (I O : list Z) :
  0 <= d -> nonneg I -> nonneg O -> length O = (length I + 1)%nat ->
  cost_le (ptrbf_complexity I O) (ptrbf_complexity (widen k d I) O)
  /\ cost_le (ptrbf_complexity I O) (ptrbf_complexity I (widen k d O)).
Proof.
  intros Hd HI HO Hlen.
  rewrite !ptrbf_closed by (rewrite ?length_widen; lia).
  cbn [cost_le]. split.
  - apply ptrbf_formula_mono;
      [assumption|apply widen_dominated, Hd|assumption|apply dominated_refl].
  - apply ptrbf_formula_mono;
      [assumption|apply dominated_refl|assumption|apply widen_dominated, Hd].
Qed.

Lemma scalar_widen_le (d inp neurons out : Z) :
  0 <= d -> 0 <= inp -> 0 <= neurons -> 0 <= out ->
  pair_le (crbf_complexity inp neurons out)
          (crbf_complexity (inp + d) neurons out)
  /\ pair_le (crbf_complexity inp neurons out)
             (crbf_complexity inp (neurons + d) out)
  /\ pair_le (crbf_complexity inp neurons out)
             (crbf_complexity inp neurons (out + d))
  /\ pair_le (fcrbf_complexity inp neurons out)
             (fcrbf_complexity (inp + d) neurons out)
  /\ pair_le (fcrbf_complexity inp neurons out)
             (fcrbf_complexity inp (neurons + d) out)
  /\ pair_le (fcrbf_complexity inp neurons out)
             (fcrbf_complexity inp neurons (out + d)).
Proof.
  intros Hd Hi Hn Ho. unfold pair_le, crbf_complexity, fcrbf_complexity.
  cbn [fst snd]. repeat split; nia.
Qed.

(** C5.  Monotonicity.  For each of the six functions and every valid
    input of non-negative integers, making one layer (or one scalar count)
    wider by a positive amount [d], all else fixed, decreases neither the
    training cost nor the inference cost. *)
Theorem widening_never_cheaper (k : nat) (d : Z) :
  0 < d ->
  (forall I : list Z, nonneg I -> (2 <= length I)%nat ->
     cost_le (cvfnn_complexity I) (cvfnn_complexity (widen k d I))
     /\ cost_le (scfnn_complexity I) (scfnn_complexity (widen k d I))
     /\ cost_le (mlmvn_complexity I) (mlmvn_complexity (widen k d I)))
  /\ (forall inp neurons out : Z, 0 <= inp -> 0 <= neurons -> 0 <= out ->
        pair_le (crbf_complexity inp neurons out)
                (crbf_complexity (inp + d) neurons out)
        /\ pair_le (crbf_complexity inp neurons out)
                   (crbf_complexity inp (neurons + d) out)
        /\ pair_le (crbf_complexity inp neurons out)
                   (crbf_complexity inp neurons (out + d))
        /\ pair_le (fcrbf_complexity inp neurons out)
                   (fcrbf_complexity (inp + d) neurons out)
        /\ pair_le (fcrbf_complexity inp neurons out)
                   (fcrbf_complexity inp (neurons + d) out)
        /\ pair_le (fcrbf_complexity inp neurons out)
                   (fcrbf_complexity inp neurons (out + d)))
  /\ (forall I O : list Z,
        nonneg I -> nonneg O -> length O = (length I + 1)%nat ->
        cost_le (ptrbf_complexity I O) (ptrbf_complexity (widen k d I) O)
        /\ cost_le (ptrbf_complexity I O) (ptrbf_complexity I (widen k d O))).
Proof.
  intros Hd. split; [|split].
  - intros I HI Hlen. apply feedforward_widen_le; [lia|assumption..].
  - intros inp neurons out Hi Hn Ho. apply scalar_widen_le; lia.
  - intros I O HI HO Hlen. apply ptrbf_widen_le; [lia|assumption..].
Qed.

Lemma widening_never_cheaper_witness :
  widen 1 5 [6; 97; 3] = [6; 102; 3]
  /\ cost_le (cvfnn_complexity [6; 97; 3]) (cvfnn_complexity [6; 102; 3])
  /\ pair_le (crbf_complexity 6 100 3) (crbf_complexity 6 (100 + 5) 3)
  /\ cost_le (ptrbf_complexity [50; 50] [6; 50; 3])
             (ptrbf_complexity [50; 50] (widen 1 5 [6; 50; 3])).
Proof.
  assert (Hd : 0 < 5) by lia.
  destruct (widening_never_cheaper 1 5 Hd) as (Hff & Hsc & Hpt).
  split; [reflexivity|]. split; [|split].
  - apply (Hff [6; 97; 3]); [repeat constructor; lia|simpl; lia].
  - apply (Hsc 6 100 3); lia.
  - apply (Hpt [50; 50] [6; 50; 3]);
      [repeat constructor; lia|repeat constructor; lia|reflexivity].
Defined.

(** C6.  For each of the six functions and every valid input of
    non-negative integers (lists of the required lengths, scalars [>= 0]),
    the call returns and both components of the pair are non-negative
    integers. *)
Theorem costs_are_nonneg :
  (forall I : list Z, nonneg I -> (2 <= length I)%nat ->
     cost_nonneg (cvfnn_complexity I)
     /\ cost_nonneg (scfnn_complexity I)
     /\ cost_nonneg (mlmvn_complexity I))
  /\ (forall inp neurons out : Z, 0 <= inp -> 0 <= neurons -> 0 <= out ->
        pair_nonneg (crbf_complexity inp neurons out)
        /\ pair_nonneg (fcrbf_complexity inp neurons out))
  /\ (forall I O : list Z,
        nonneg I -> nonneg O -> length O = (length I + 1)%nat ->
        cost_nonneg (ptrbf_complexity I O)).
Proof.
  split; [|split].
  - intros I HI Hlen.
    rewrite cvfnn_closed, scfnn_closed, mlmvn_closed by exact Hlen.
    cbn [cost_nonneg]. repeat split.
    + apply cvfnn_formula_nonneg with (J := I); [assumption|apply dominated_refl].
    + apply cvfnn_formula_nonneg with (J := I); [assumption|apply dominated_refl].
    + apply scfnn_formula_nonneg with (J := I); [assumption|apply dominated_refl].
    + apply scfnn_formula_nonneg with (J := I); [assumption|apply dominated_refl].
    + apply mlmvn_formula_nonneg with (J := I); [assumption|apply dominated_refl].
    + apply mlmvn_formula_nonneg with (J := I); [assumption|apply dominated_refl].
  - intros inp neurons out Hi Hn Ho.
    unfold pair_nonneg, crbf_complexity, fcrbf_complexity. cbn [fst snd].
    repeat split; nia.
  - intros I O HI HO Hlen. rewrite ptrbf_closed by lia.
    cbn [cost_nonneg]. apply ptrbf_formula_nonneg; assumption.
Qed.

Lemma costs_are_nonneg_witness :
  cost_nonneg (cvfnn_complexity [6; 97; 3])
  /\ pair_nonneg (crbf_complexity 6 100 3)
  /\ cost_nonneg (ptrbf_complexity [50; 50] [6; 50; 3]).
Proof.
  destruct costs_are_nonneg as (Hff & Hsc & Hpt).
  split; [|split].
  - apply (Hff [6; 97; 3]); [repeat constructor; lia|simpl; lia].
  - apply (Hsc 6 100 3); lia.
  - apply (Hpt [50; 50] [6; 50; 3]);
      [repeat constructor; lia|repeat constructor; lia|reflexivity].
Defined.

(** C7.  For every list [I] of non-negative integers with exactly two
    entries, [cvfnn_complexity], [scfnn_complexity] and [mlmvn_complexity]
    return (no subscript is out of range): the interior sum is empty and
    the result keeps the output term and the inference sum only, for
    CVFNN [(8*I[1]*(I[0]+1), 4*I[1]*I[0])]. *)
Theorem no_hidden_layer (I : list Z) :
  nonneg I -> length I = 2%nat ->
  py_range 1 (py_len I - 1) = []
  /\ cvfnn_complexity I
     = Ok (8 * width I 1 * (width I 0 + 1), 4 * width I 1 * width I 0)
  /\ scfnn_complexity I
     = Ok (2 * width I 1 * (4 * width I 0 + 3), 4 * width I 1 * width I 0)
  /\ mlmvn_complexity I
     = Ok (4 * width I 1 * (2 * width I 0 + 3),
           4 * width I 1 * (width I 0 + 1)).
Proof.
  intros _ HI.
  destruct I as [|i0 [|i1 [|i2 I]]]; cbn [length] in HI; try discriminate.
  unfold width. cbn [nth]. split; [reflexivity|].
  rewrite cvfnn_closed, scfnn_closed, mlmvn_closed by (cbn [length]; lia).
  unfold cvfnn_formula, scfnn_formula, mlmvn_formula, interior_sum, sigma,
    last1, last2, width.
  cbn [length Nat.sub sigma_from nth].
  repeat split; do 2 f_equal; lia.
Qed.

Lemma no_hidden_layer_witness :
  py_range 1 (py_len [6; 3] - 1) = []
  /\ cvfnn_complexity [6; 3] = Ok (8 * 3 * (6 + 1), 4 * 3 * 6)
  /\ scfnn_complexity [6; 3] = Ok (2 * 3 * (4 * 6 + 3), 4 * 3 * 6)
  /\ mlmvn_complexity [6; 3] = Ok (4 * 3 * (2 * 6 + 3), 4 * 3 * (6 + 1)).
Proof.
  apply (no_hidden_layer [6; 3]).
  - repeat constructor; lia.
  - reflexivity.
Defined.

(** C8, as stated, fails: a negative count and misaligned lists both go
    through, and a pair comes back. *)
Lemma invalid_input_returns_pair :
  crbf_complexity (-1) 1 0 = (1, -1)
  /\ cvfnn_complexity [6; -97; 3] = Ok (-8900, -3492)
  /\ length [6; 50; 3; 7] <> (length [50; 50] + 1)%nat
  /\ ptrbf_complexity [50; 50] [6; 50; 3; 7] = Ok (54428, 16400).
Proof.
  split; [reflexivity|]. split; [reflexivity|].
  split; [simpl; lia|reflexivity].
Qed.

(** C8, amended.  No precondition is checked and there is no error of
    the kind [NegativeWidth] or [MisalignedSequences].  The two scalar
    functions return a pair for all integers, and the three list
    functions return the pair of their formulas for every list of
    integers, of any sign, with at least two entries.
    [ptrbf_complexity] returns the pair of its formula whenever
    [len(O) >= len(I) + 1], aligned or not.  The only error is the
    [IndexError] of a subscript out of range: the three list functions
    raise it when [len(I) < 2], and [ptrbf_complexity] when
    [len(O) < len(I) + 1]. *)
Theorem no_input_validation :
  (forall inp neurons out : Z,
     crbf_complexity inp neurons out
     = (neurons * (4 * inp + 6 * out + 5) + 4 * out,
        neurons * (2 * inp + 2 * out + 1))
     /\ fcrbf_complexity inp neurons out
        = (12 * neurons * (inp + out + 1) + 4 * out,
           4 * neurons * (inp + out)))
  /\ (forall I : list Z,
        if decide (2 <= length I)%nat
        then cvfnn_complexity I = Ok (cvfnn_formula I)
             /\ scfnn_complexity I = Ok (scfnn_formula I)
             /\ mlmvn_complexity I = Ok (mlmvn_formula I)
        else cvfnn_complexity I = Raise IndexError
             /\ scfnn_complexity I = Raise IndexError
             /\ mlmvn_complexity I = Raise IndexError)
  /\ (forall I O : list Z,
        if decide (length I + 1 <= length O)%nat
        then ptrbf_complexity I O = Ok (ptrbf_formula I O)
        else ptrbf_complexity I O = Raise IndexError).
Proof.
  split; [|split].
  - intros inp neurons out. split; reflexivity.
  - intros I. destruct (decide (2 <= length I)%nat) as [H|H].
    + split; [|split].
      * apply cvfnn_closed, H.
      * apply scfnn_closed, H.
      * apply mlmvn_closed, H.
    + apply feedforward_raise. lia.
  - intros I O. destruct (decide (length I + 1 <= length O)%nat) as [H|H].
    + apply ptrbf_closed, H.
    + apply ptrbf_raise. lia.
Qed.

(** C9.  For every list [I] of integers with at least two entries, the
    training cost of [cvfnn_complexity(I)] is that of
    [scfnn_complexity(I)] plus exactly [2*I[-1]]: the interior sums are
    the same and the output terms differ by [2*I[-1]]. *)
Theorem cvfnn_scfnn_training_gap (I : list Z) :
  (2 <= length I)%nat ->
  exists tc ts ic isc x y : Z,
    cvfnn_complexity I = Ok (tc, ic)
    /\ scfnn_complexity I = Ok (ts, isc)
    /\ getitem I (-1) = Ok x
    /\ getitem I (-2) = Ok y
    /\ tc = 4 * interior_sum 2 I + 8 * x * (y + 1)
    /\ ts = 4 * interior_sum 2 I + 2 * x * (4 * y + 3)
    /\ tc - ts = 2 * x.
Proof.
  intros HI. rewrite cvfnn_closed, scfnn_closed by exact HI.
  rewrite !getitem_neg by (unfold py_len; lia).
  rewrite last1_eq, last2_eq by lia.
  eexists _, _, _, _, _, _. repeat split. cbn [fst]. lia.
Qed.

Lemma cvfnn_scfnn_training_gap_witness :
  exists tc ts ic isc x y : Z,
    cvfnn_complexity [6; 97; 3] = Ok (tc, ic)
    /\ scfnn_complexity [6; 97; 3] = Ok (ts, isc)
    /\ getitem [6; 97; 3] (-1) = Ok x
    /\ getitem [6; 97; 3] (-2) = Ok y
    /\ tc = 4 * interior_sum 2 [6; 97; 3] + 8 * x * (y + 1)
    /\ ts = 4 * interior_sum 2 [6; 97; 3] + 2 * x * (4 * y + 3)
    /\ tc - ts = 2 * x.
Proof.
  apply (cvfnn_scfnn_training_gap [6; 97; 3]). simpl; lia.
Defined.

(** C10.  [ptrbf_complexity] does not modify its arguments: whatever the
    lists [I] and [O] behind the two references (which may be one and the
    same list), and whether the call returns or raises, both lists are the
    same after the call.  The list [[0] + I] is a new object, and the call
    computes from it what the function on lists computes. *)
Theorem ptrbf_complexity_keeps_arguments
        (h : Heap.heap) (pI pO : Heap.loc) (I O : list Z) :
  h !! pI = Some I -> h !! pO = Some O ->
  snd (ByReference.ptrbf_complexity pI pO h) !! pI = Some I
  /\ snd (ByReference.ptrbf_complexity pI pO h) !! pO = Some O
  /\ fst (ByReference.ptrbf_complexity pI pO h) = ptrbf_complexity I O.
Proof.
  intros HI HO.
  pose proof (HeapFacts.framed_ptrbf_complexity pI pO h) as Hfr.
  split; [|split].
  - rewrite Hfr; [exact HI|]. rewrite HI. eexists. reflexivity.
  - rewrite Hfr; [exact HO|]. rewrite HO. eexists. reflexivity.
  - apply HeapFacts.ptrbf_complexity_run; assumption.
Qed.

Lemma ptrbf_complexity_keeps_arguments_witness :
  let h : Heap.heap := <[1%positive := [50; 50]]> {[2%positive := [6; 50; 3]]} in
  snd (ByReference.ptrbf_complexity 1%positive 2%positive h) !! 1%positive
  = Some [50; 50]
  /\ snd (ByReference.ptrbf_complexity 1%positive 2%positive h) !! 2%positive
     = Some [6; 50; 3]
  /\ fst (ByReference.ptrbf_complexity 1%positive 2%positive h)
     = ptrbf_complexity [50; 50] [6; 50; 3].
Proof.
  apply (ptrbf_complexity_keeps_arguments
           (<[1%positive := [50; 50]]> {[2%positive := [6; 50; 3]]})
           1%positive 2%positive [50; 50] [6; 50; 3]).
  - reflexivity.
  - reflexivity.
Defined.

(** * Further properties of the six functions *)

(** ** The other closed formulas *)

(** X1.  For every list [I] of integers with at least two entries,
    [scfnn_complexity(I)] returns: the training cost is 4 times the sum
    over [l = 1 .. len(I)-2] of [I[l]*(2*I[l-1] + I[l+1] + 2)] plus
    [2*I[-1]*(4*I[-2] + 3)], the inference cost 4 times the sum over
    [l = 1 .. len(I)-1] of [I[l]*I[l-1]]. *)
Theorem scfnn_complexity_formula (I : list Z) :
  (2 <= length I)%nat ->
  scfnn_complexity I
  = Ok (4 * sigma 1 (length I - 2)
              (fun l => width I l * (2 * width I (l - 1) + width I (l + 1) + 2))
        + 2 * last1 I * (4 * last2 I + 3),
        4 * sigma 1 (length I - 1) (fun l => width I l * width I (l - 1))).
Proof. intros HI. apply scfnn_closed, HI. Qed.

Lemma scfnn_complexity_formula_witness :
  scfnn_complexity [6; -97; 3]
  = Ok (4 * sigma 1 1
              (fun l => width [6; -97; 3] l
                        * (2 * width [6; -97; 3] (l - 1)
                           + width [6; -97; 3] (l + 1) + 2))
        + 2 * 3 * (4 * -97 + 3),
        4 * sigma 1 2
              (fun l => width [6; -97; 3] l * width [6; -97; 3] (l - 1))).
Proof. apply (scfnn_complexity_formula [6; -97; 3]). simpl; lia. Defined.

(** X2.  For every list [I] of integers with at least two entries,
    [mlmvn_complexity(I)] returns: the training cost is 4 times the sum
    over [l = 1 .. len(I)-2] of [I[l]*(2*I[l-1] + I[l+1] + 4)] plus
    [4*I[-1]*(2*I[-2] + 3)], the inference cost 4 times the sum over
    [l = 1 .. len(I)-1] of [I[l]*(I[l-1] + 1)]. *)
Theorem mlmvn_complexity_formula (I : list Z) :
  (2 <= length I)%nat ->
  mlmvn_complexity I
  = Ok (4 * sigma 1 (length I - 2)
              (fun l => width I l * (2 * width I (l - 1) + width I (l + 1) + 4))
        + 4 * last1 I * (2 * last2 I + 3),
        4 * sigma 1 (length I - 1)
              (fun l => width I l * (width I (l - 1) + 1))).
Proof. intros HI. apply mlmvn_closed, HI. Qed.

Lemma mlmvn_complexity_formula_witness :
  mlmvn_complexity [6; 97; 3]
  = Ok (4 * sigma 1 1
              (fun l => width [6; 97; 3] l
                        * (2 * width [6; 97; 3] (l - 1)
                           + width [6; 97; 3] (l + 1) + 4))
        + 4 * 3 * (2 * 97 + 3),
        4 * sigma 1 2
              (fun l => width [6; 97; 3] l * (width [6; 97; 3] (l - 1) + 1))).
Proof. apply (mlmvn_complexity_formula [6; 97; 3]). simpl; lia. Defined.

(** ** PT-RBF at its edges *)

(** X3.  With no layer at all, [ptrbf_complexity([], O)] raises
    [IndexError] for the empty [O] and otherwise returns
    [(4*O[-1], 0)], whatever the length of [O]. *)
Theorem ptrbf_no_layer (O : list Z) :
  ptrbf_complexity [] O
  = match O with
    | [] => Raise IndexError
    | _ :: _ => Ok (4 * last1 O, 0)
    end.
Proof.
  destruct O as [|o O]; [reflexivity|].
  rewrite ptrbf_closed by (cbn [length]; lia).
  unfold ptrbf_formula, sigma. cbn [length Nat.sub sigma_from].
  do 2 f_equal.
Qed.

(** X4.  The shallow PT-RBF: with one layer of [n] neurons, [i] inputs
    and [o] outputs, [ptrbf_complexity([n], [i, o])] returns
    [(4*n*(i + 3*o + 3) + 4*o, 2*n*(i + 2*o + 1))]. *)
Theorem ptrbf_single_layer (n i o : Z) :
  ptrbf_complexity [n] [i; o]
  = Ok (4 * n * (i + 3 * o + 3) + 4 * o, 2 * n * (i + 2 * o + 1)).
Proof.
  rewrite ptrbf_closed by (cbn [length]; lia).
  unfold ptrbf_formula, sigma, last1, width.
  cbn [length Nat.sub Nat.add sigma_from nth].
  do 2 f_equal; lia.
Qed.

Lemma width_take (O : list Z) (n l : nat) :
  (l < n)%nat -> width (take n O) l = width O l.
Proof.
  intros Hl. rewrite !width_lookup, lookup_take_lt by exact Hl. reflexivity.
Qed.

(** X5.  Entries of [O] beyond the aligned ones are not rejected: when
    [len(O) >= len(I) + 1], the call returns the inference cost of the
    aligned prefix [O[:len(I)+1]], and the training cost of that prefix
    with [4*O[-1]] in place of [4*O[len(I)]].  Only the last of the
    surplus entries is read. *)
Theorem ptrbf_surplus_outputs (I O : list Z) :
  (length I + 1 <= length O)%nat ->
  exists t i : Z,
    ptrbf_complexity I (take (length I + 1) O) = Ok (t, i)
    /\ getitem O (-1) = Ok (last1 O)
    /\ ptrbf_complexity I O
       = Ok (t + 4 * (last1 O - width O (length I)), i).
Proof.
  intros HO.
  rewrite (ptrbf_closed I O) by exact HO.
  rewrite (ptrbf_closed I (take (length I + 1) O))
    by (rewrite length_take_le; lia).
  eexists _, _. split; [reflexivity|]. split.
  { rewrite getitem_neg by (unfold py_len; lia). rewrite last1_eq by lia.
    reflexivity. }
  unfold ptrbf_formula, sigma, last1. cbv zeta.
  rewrite length_take_le by lia. cbn [length].
  replace (length I + 1 - 1)%nat with (length I) by lia.
  rewrite (width_take O (length I + 1) (length I)) by lia.
  rewrite (sigma_from_ext
             (fun l => width (0 :: I) l
                       * (width (take (length I + 1) O) (l - 1)
                          + 3 * width (take (length I + 1) O) l + 3))
             (fun l => width (0 :: I) l
                       * (width O (l - 1) + 3 * width O l + 3)))
    by (intros n Hn; rewrite !width_take by lia; reflexivity).
  rewrite (sigma_from_ext
             (fun l => width (take (length I + 1) O) l
                       * (width (0 :: I) (l + 1) + 1))
             (fun l => width O l * (width (0 :: I) (l + 1) + 1)))
    by (intros n Hn; rewrite !width_take by lia; reflexivity).
  rewrite (sigma_from_ext
             (fun l => width (0 :: I) l
                       * (width (take (length I + 1) O) (l - 1)
                          + 2 * width (take (length I + 1) O) l + 1))
             (fun l => width (0 :: I) l
                       * (width O (l - 1) + 2 * width O l + 1)))
    by (intros n Hn; rewrite !width_take by lia; reflexivity).
  do 2 f_equal. lia.
Qed.

Lemma ptrbf_surplus_outputs_witness :
  exists t i : Z,
    ptrbf_complexity [50; 50] [6; 50; 3] = Ok (t, i)
    /\ getitem [6; 50; 3; 9; 7] (-1) = Ok 7
    /\ ptrbf_complexity [50; 50] [6; 50; 3; 9; 7] = Ok (t + 4 * (7 - 3), i).
Proof. apply (ptrbf_surplus_outputs [50; 50] [6; 50; 3; 9; 7]). simpl; lia. Defined.

(** ** Comparing the architectures *)

Lemma sigma_from_plus (f g : nat -> Z) (c : Z) (cnt lo : nat) :
  sigma_from lo cnt (fun l => f l + c * g l)
  = sigma_from lo cnt f + c * sigma_from lo cnt g.
Proof.
  revert lo. induction cnt as [|cnt IH]; intros lo; cbn [sigma_from]; [lia|].
  rewrite IH, Z.mul_add_distr_l. lia.
Qed.

Lemma interior_sum_bias (I : list Z) :
  interior_sum 4 I = interior_sum 2 I + 2 * sigma 1 (length I - 2) (width I).
Proof.
  unfold interior_sum, sigma. rewrite <- sigma_from_plus.
  apply sigma_from_ext. intros n _. lia.
Qed.

Lemma inference_bias (I : list Z) :
  sigma 1 (length I - 1) (fun l => width I l * (width I (l - 1) + 1))
  = sigma 1 (length I - 1) (fun l => width I l * width I (l - 1))
    + sigma 1 (length I - 1) (width I).
Proof.
  unfold sigma.
  rewrite <- (Z.mul_1_l (sigma_from 1 _ (width I))), <- sigma_from_plus.
  apply sigma_from_ext. intros n _. lia.
Qed.

Lemma sigma_width_nonneg (I : list Z) (lo hi : nat) :
  nonneg I -> 0 <= sigma lo hi (width I).
Proof.
  intros HI. unfold sigma. apply sigma_from_nonneg.
  intros n _. apply nonneg_width, HI.
Qed.

(** X6.  On every list [I] of integers with at least two entries, MLMVN
    costs what CVFNN costs plus a term linear in the widths: the
    inference cost is larger by 4 times the sum of [I[1] .. I[-1]], the
    training cost by 8 times the sum of the interior widths
    [I[1] .. I[-2]] plus [4*I[-1]]. *)
Theorem mlmvn_cvfnn_gap (I : list Z) :
  (2 <= length I)%nat ->
  exists tc ic tm im : Z,
    cvfnn_complexity I = Ok (tc, ic)
    /\ mlmvn_complexity I = Ok (tm, im)
    /\ im = ic + 4 * sigma 1 (length I - 1) (width I)
    /\ tm = tc + 8 * sigma 1 (length I - 2) (width I) + 4 * last1 I.
Proof.
  intros HI. rewrite cvfnn_closed, mlmvn_closed by exact HI.
  eexists _, _, _, _. split; [reflexivity|]. split; [reflexivity|].
  rewrite inference_bias, interior_sum_bias. split; lia.
Qed.

Lemma mlmvn_cvfnn_gap_witness :
  exists tc ic tm im : Z,
    cvfnn_complexity [6; 97; 3] = Ok (tc, ic)
    /\ mlmvn_complexity [6; 97; 3] = Ok (tm, im)
    /\ im = ic + 4 * sigma 1 2 (width [6; 97; 3])
    /\ tm = tc + 8 * sigma 1 1 (width [6; 97; 3]) + 4 * 3.
Proof. apply (mlmvn_cvfnn_gap [6; 97; 3]). simpl; lia. Defined.

(** X7.  On every list of non-negative integers with at least two
    entries the three feed-forward costs are ordered: SCFNN is at most
    CVFNN, and CVFNN at most MLMVN, in training and in inference. *)
Theorem feedforward_cost_order (I : list Z) :
  nonneg I -> (2 <= length I)%nat ->
  cost_le (scfnn_complexity I) (cvfnn_complexity I)
  /\ cost_le (cvfnn_complexity I) (mlmvn_complexity I).
Proof.
  intros Hn HI.
  rewrite cvfnn_closed, scfnn_closed, mlmvn_closed by exact HI.
  pose proof (nonneg_width I (length I - 1) Hn) as Hx.
  pose proof (sigma_width_nonneg I 1 (length I - 1) Hn) as Ha.
  pose proof (sigma_width_nonneg I 1 (length I - 2) Hn) as Hb.
  unfold cost_le, pair_le, cvfnn_formula, scfnn_formula, mlmvn_formula.
  cbn [fst snd]. rewrite inference_bias, interior_sum_bias.
  unfold last1 in *. repeat split; lia.
Qed.

Lemma feedforward_cost_order_witness :
  cost_le (scfnn_complexity [6; 97; 3]) (cvfnn_complexity [6; 97; 3])
  /\ cost_le (cvfnn_complexity [6; 97; 3]) (mlmvn_complexity [6; 97; 3]).
Proof.
  apply (feedforward_cost_order [6; 97; 3]).
  - repeat constructor; lia.
  - simpl; lia.
Defined.

(** X8.  For non-negative counts the training cost of C-RBF is at most
    that of FC-RBF.  The inference cost of C-RBF is at most that of
    FC-RBF exactly when there is no neuron or at least one input or
    output; with neurons and neither input nor output C-RBF counts
    [neurons] multiplications and FC-RBF none. *)
Theorem crbf_fcrbf_order (inp neurons out : Z) :
  0 <= inp -> 0 <= neurons -> 0 <= out ->
  fst (crbf_complexity inp neurons out)
  <= fst (fcrbf_complexity inp neurons out)
  /\ (snd (crbf_complexity inp neurons out)
      <= snd (fcrbf_complexity inp neurons out)
      <-> neurons = 0 \/ 1 <= inp + out).
Proof.
  intros Hi Hn Ho. unfold crbf_complexity, fcrbf_complexity. cbn [fst snd].
  split; [nia|]. split.
  - intros H. destruct (Z.eq_dec neurons 0) as [E|E]; [left; exact E|].
    right. nia.
  - intros [->|H]; nia.
Qed.

Lemma crbf_fcrbf_order_witness :
  fst (crbf_complexity 6 100 3) <= fst (fcrbf_complexity 6 100 3)
  /\ (snd (crbf_complexity 6 100 3) <= snd (fcrbf_complexity 6 100 3)
      <-> 100 = 0 \/ 1 <= 6 + 3).
Proof. apply (crbf_fcrbf_order 6 100 3); lia. Defined.

(** ** Wider networks *)

(** X9.  Widening any number of layers at once: when [J] has as many
    layers as [I] and none is narrower, and the widths of [I] are
    non-negative, each feed-forward function returns on both and neither
    cost is smaller on [J]; likewise for PT-RBF when both of its lists
    are widened. *)
Theorem wider_network_never_cheaper :
  (forall I J : list Z,
     nonneg I -> dominated I J -> (2 <= length I)%nat ->
     cost_le (cvfnn_complexity I) (cvfnn_complexity J)
     /\ cost_le (scfnn_complexity I) (scfnn_complexity J)
     /\ cost_le (mlmvn_complexity I) (mlmvn_complexity J))
  /\ (forall I J O P : list Z,
        nonneg I -> nonneg O -> dominated I J -> dominated O P ->
        length O = (length I + 1)%nat ->
        cost_le (ptrbf_complexity I O) (ptrbf_complexity J P)).
Proof.
  split.
  - intros I J Hn Hd HI. pose proof (proj1 Hd) as Hlen.
    rewrite !cvfnn_closed, !scfnn_closed, !mlmvn_closed by lia.
    cbn [cost_le]. split; [|split].
    + apply cvfnn_formula_mono; assumption.
    + apply scfnn_formula_mono; assumption.
    + apply mlmvn_formula_mono; assumption.
  - intros I J O P HnI HnO HdI HdO Hlen.
    pose proof (proj1 HdI). pose proof (proj1 HdO).
    rewrite !ptrbf_closed by lia.
    cbn [cost_le]. apply ptrbf_formula_mono; assumption.
Qed.

Lemma wider_network_never_cheaper_witness :
  cost_le (cvfnn_complexity [6; 97; 3]) (cvfnn_complexity [8; 100; 3])
  /\ cost_le (ptrbf_complexity [50; 50] [6; 50; 3])
             (ptrbf_complexity [60; 50] [6; 55; 4]).
Proof.
  destruct wider_network_never_cheaper as [Hff Hpt]. split.
  - apply (Hff [6; 97; 3] [8; 100; 3]).
    + repeat constructor; lia.
    + split; [reflexivity|].
      intros [|[|[|[|l]]]]; unfold width; cbn [nth]; lia.
    + simpl; lia.
  - apply (Hpt [50; 50] [60; 50] [6; 50; 3] [6; 55; 4]).
    + repeat constructor; lia.
    + repeat constructor; lia.
    + split; [reflexivity|].
      intros [|[|[|l]]]; unfold width; cbn [nth]; lia.
    + split; [reflexivity|].
      intros [|[|[|[|l]]]]; unfold width; cbn [nth]; lia.
    + reflexivity.
Defined.

Lemma sigma_from_lt (f g : nat -> Z) (k cnt lo : nat) :
  (forall n : nat, (lo <= n < lo + cnt)%nat -> f n <= g n) ->
  (lo <= k < lo + cnt)%nat -> f k < g k ->
  sigma_from lo cnt f < sigma_from lo cnt g.
Proof.
  revert lo. induction cnt as [|cnt IH]; intros lo Hle Hk Hlt; [lia|].
  cbn [sigma_from].
  assert (f lo <= g lo) by (apply Hle; lia).
  destruct (Nat.eq_dec k lo) as [->|Hne].
  - assert (sigma_from (S lo) cnt f <= sigma_from (S lo) cnt g).
    { apply sigma_from_le. intros n Hn. apply Hle. lia. }
    lia.
  - assert (sigma_from (S lo) cnt f < sigma_from (S lo) cnt g).
    { apply IH; [intros n Hn; apply Hle; lia|lia|exact Hlt]. }
    lia.
Qed.

Lemma width_widen_same (k : nat) (d : Z) (I : list Z) :
  (k < length I)%nat -> width (widen k d I) k = width I k + d.
Proof.
  intros Hk. rewrite width_widen, decide_True by (split; [reflexivity|lia]).
  reflexivity.
Qed.

Lemma width_widen_other (k l : nat) (d : Z) (I : list Z) :
  l <> k -> width (widen k d I) l = width I l.
Proof.
  intros Hl. rewrite width_widen, decide_False by (intros [? _]; congruence).
  reflexivity.
Qed.

Lemma interior_sum_widen_lt (bias : Z) (k : nat) (d : Z) (I : list Z) :
  0 < bias -> nonneg I -> 0 < d -> (1 <= k <= length I - 2)%nat ->
  interior_sum bias I < interior_sum bias (widen k d I).
Proof.
  intros Hb HI Hd Hk. unfold interior_sum, sigma. rewrite length_widen.
  pose proof (widen_dominated k d I ltac:(lia)) as [_ Hw].
  apply sigma_from_lt with (k := k); [|lia|].
  - intros n _.
    pose proof (nonneg_width I n HI). pose proof (nonneg_width I (n - 1) HI).
    pose proof (nonneg_width I (n + 1) HI).
    pose proof (Hw n). pose proof (Hw (n - 1)%nat). pose proof (Hw (n + 1)%nat).
    apply Z.mul_le_mono_nonneg; lia.
  - rewrite width_widen_same by lia. rewrite !width_widen_other by lia.
    pose proof (nonneg_width I k HI). pose proof (nonneg_width I (k - 1) HI).
    pose proof (nonneg_width I (k + 1) HI).
    nia.
Qed.

(** Widening a layer other than the input layer: either the interior
    sums grow strictly (the output widths not shrinking), or the layer is
    the output layer, which grows by [d]. *)
Lemma widen_layer_cases (k : nat) (d : Z) (I : list Z) :
  nonneg I -> 0 < d -> (1 <= k < length I)%nat ->
  0 <= last1 I /\ 0 <= last2 I
  /\ ((interior_sum 2 I < interior_sum 2 (widen k d I)
       /\ interior_sum 4 I < interior_sum 4 (widen k d I)
       /\ last1 (widen k d I) = last1 I
       /\ last2 I <= last2 (widen k d I))
      \/ (interior_sum 2 I <= interior_sum 2 (widen k d I)
          /\ interior_sum 4 I <= interior_sum 4 (widen k d I)
          /\ last1 (widen k d I) = last1 I + d
          /\ last2 (widen k d I) = last2 I)).
Proof.
  intros HI Hd Hk.
  pose proof (widen_dominated k d I ltac:(lia)) as Hdom.
  split; [apply nonneg_width, HI|]. split; [apply nonneg_width, HI|].
  unfold last1, last2. rewrite !length_widen.
  destruct (Nat.eq_dec k (length I - 1)%nat) as [E|E].
  - right. split; [apply interior_sum_mono; [assumption..|lia]|].
    split; [apply interior_sum_mono; [assumption..|lia]|].
    split.
    + rewrite <- E. apply width_widen_same. lia.
    + apply width_widen_other. lia.
  - left. split; [apply interior_sum_widen_lt; [lia|assumption|lia|lia]|].
    split; [apply interior_sum_widen_lt; [lia|assumption|lia|lia]|].
    split.
    + apply width_widen_other. lia.
    + apply Hdom.
Qed.

(** X10.  On a list of non-negative integers, widening by [d > 0] any
    layer other than the input layer makes the training cost of each
    feed-forward function strictly larger. *)
Theorem widening_costs_training (k : nat) (d : Z) (I : list Z) :
  nonneg I -> 0 < d -> (1 <= k < length I)%nat ->
  exists tc tc' ts ts' tm tm' ic ic' isc isc' im im' : Z,
    cvfnn_complexity I = Ok (tc, ic)
    /\ cvfnn_complexity (widen k d I) = Ok (tc', ic')
    /\ scfnn_complexity I = Ok (ts, isc)
    /\ scfnn_complexity (widen k d I) = Ok (ts', isc')
    /\ mlmvn_complexity I = Ok (tm, im)
    /\ mlmvn_complexity (widen k d I) = Ok (tm', im')
    /\ tc < tc' /\ ts < ts' /\ tm < tm'.
Proof.
  intros HI Hd Hk.
  rewrite !cvfnn_closed, !scfnn_closed, !mlmvn_closed
    by (rewrite ?length_widen; lia).
  do 12 eexists. do 6 (split; [reflexivity|]).
  destruct (widen_layer_cases k d I HI Hd Hk) as (Hx & Hy & Hcases).
  cbn [fst].
  destruct Hcases as [(H2 & H4 & -> & Hy')|(H2 & H4 & -> & ->)].
  - assert (last1 I * last2 I <= last1 I * last2 (widen k d I))
      by (apply Z.mul_le_mono_nonneg_l; lia).
    repeat split; lia.
  - assert (0 <= d * last2 I) by (apply Z.mul_nonneg_nonneg; lia).
    repeat split; lia.
Qed.

Lemma widening_costs_training_witness :
  exists tc tc' ts ts' tm tm' ic ic' isc isc' im im' : Z,
    cvfnn_complexity [6; 0; 3] = Ok (tc, ic)
    /\ cvfnn_complexity (widen 2 1 [6; 0; 3]) = Ok (tc', ic')
    /\ scfnn_complexity [6; 0; 3] = Ok (ts, isc)
    /\ scfnn_complexity (widen 2 1 [6; 0; 3]) = Ok (ts', isc')
    /\ mlmvn_complexity [6; 0; 3] = Ok (tm, im)
    /\ mlmvn_complexity (widen 2 1 [6; 0; 3]) = Ok (tm', im')
    /\ tc < tc' /\ ts < ts' /\ tm < tm'.
Proof.
  apply (widening_costs_training 2 1 [6; 0; 3]).
  - repeat constructor; lia.
  - lia.
  - simpl; lia.
Defined.

(** ** A deeper network *)

Lemma sigma_from_snoc (f : nat -> Z) (cnt lo : nat) :
  sigma_from lo (S cnt) f = sigma_from lo cnt f + f (lo + cnt)%nat.
Proof.
  revert lo. induction cnt as [|cnt IH]; intros lo.
  - cbn [sigma_from]. replace (lo + 0)%nat with lo by lia. lia.
  - cbn [sigma_from] in *. rewrite IH.
    replace (S lo + cnt)%nat with (lo + S cnt)%nat by lia. lia.
Qed.

Lemma width_app_l (I : list Z) (w : Z) (l : nat) :
  (l < length I)%nat -> width (I ++ [w]) l = width I l.
Proof.
  intros Hl. rewrite !width_lookup, lookup_app_l by exact Hl. reflexivity.
Qed.

Lemma width_app_last (I : list Z) (w : Z) : width (I ++ [w]) (length I) = w.
Proof. rewrite width_lookup, list_lookup_middle; reflexivity. Qed.

Lemma interior_sum_snoc (bias : Z) (I : list Z) (w : Z) :
  (2 <= length I)%nat ->
  interior_sum bias (I ++ [w])
  = interior_sum bias I + last1 I * (2 * last2 I + w + bias).
Proof.
  intros HI. unfold interior_sum, sigma, last1, last2.
  rewrite last_length.
  replace (S (S (length I) - 2) - 1)%nat with (S (length I - 2)) by lia.
  replace (S (length I - 2) - 1)%nat with (length I - 2)%nat by lia.
  rewrite sigma_from_snoc.
  replace (1 + (length I - 2))%nat with (length I - 1)%nat by lia.
  rewrite (width_app_l I w (length I - 1)) by lia.
  rewrite (width_app_l I w (length I - 1 - 1)) by lia.
  replace (length I - 1 + 1)%nat with (length I) by lia.
  rewrite width_app_last.
  replace (length I - 1 - 1)%nat with (length I - 2)%nat by lia.
  f_equal. apply sigma_from_ext. intros n Hn.
  rewrite !width_app_l by lia. reflexivity.
Qed.

Lemma inference_sum_snoc (op : Z -> Z -> Z) (I : list Z) (w : Z) :
  (1 <= length I)%nat ->
  sigma 1 (length (I ++ [w]) - 1)
        (fun l => op (width (I ++ [w]) l) (width (I ++ [w]) (l - 1)))
  = sigma 1 (length I - 1) (fun l => op (width I l) (width I (l - 1)))
    + op w (last1 I).
Proof.
  intros HI. unfold sigma, last1. rewrite last_length.
  replace (S (S (length I) - 1) - 1)%nat with (S (length I - 1)) by lia.
  replace (S (length I - 1) - 1)%nat with (length I - 1)%nat by lia.
  rewrite sigma_from_snoc.
  replace (1 + (length I - 1))%nat with (length I) by lia.
  rewrite width_app_last, (width_app_l I w (length I - 1)) by lia.
  f_equal. apply sigma_from_ext. intros n Hn.
  rewrite !width_app_l by lia. reflexivity.
Qed.

Lemma last_snoc (I : list Z) (w : Z) :
  (1 <= length I)%nat ->
  last1 (I ++ [w]) = w /\ last2 (I ++ [w]) = last1 I.
Proof.
  intros HI. unfold last1, last2. rewrite last_length. split.
  - replace (S (length I) - 1)%nat with (length I) by lia.
    apply width_app_last.
  - replace (S (length I) - 2)%nat with (length I - 1)%nat by lia.
    apply width_app_l. lia.
Qed.

(** X11.  Putting a new output layer of width [w] on a network [I] with
    at least two layers, whose output width is [x = I[-1]]: the inference
    cost grows by [4*w*x] for CVFNN and SCFNN and by [4*w*(x+1)] for
    MLMVN; the training cost grows by [12*x*w + 8*w] for CVFNN, by
    [12*x*w + 2*x + 6*w] for SCFNN and by [12*x*w + 4*x + 12*w] for
    MLMVN.  The increase depends on [I] through [x] only. *)
Theorem adding_output_layer (I : list Z) (w : Z) :
  (2 <= length I)%nat ->
  exists tc ic ts isc tm im x : Z,
    getitem I (-1) = Ok x
    /\ cvfnn_complexity I = Ok (tc, ic)
    /\ cvfnn_complexity (I ++ [w])
       = Ok (tc + 12 * x * w + 8 * w, ic + 4 * w * x)
    /\ scfnn_complexity I = Ok (ts, isc)
    /\ scfnn_complexity (I ++ [w])
       = Ok (ts + 12 * x * w + 2 * x + 6 * w, isc + 4 * w * x)
    /\ mlmvn_complexity I = Ok (tm, im)
    /\ mlmvn_complexity (I ++ [w])
       = Ok (tm + 12 * x * w + 4 * x + 12 * w, im + 4 * w * (x + 1)).
Proof.
  intros HI.
  rewrite !cvfnn_closed, !scfnn_closed, !mlmvn_closed
    by (rewrite ?last_length; lia).
  rewrite getitem_neg by (unfold py_len; lia). rewrite last1_eq by lia.
  do 7 eexists. split; [reflexivity|].
  destruct (last_snoc I w ltac:(lia)) as [E1 E2].
  unfold cvfnn_formula, scfnn_formula, mlmvn_formula.
  rewrite !interior_sum_snoc by exact HI.
  rewrite (inference_sum_snoc (fun a b => a * b) I w) by lia.
  rewrite (inference_sum_snoc (fun a b => a * (b + 1)) I w) by lia.
  rewrite E1, E2.
  repeat split; do 2 f_equal; lia.
Qed.

Lemma adding_output_layer_witness :
  exists tc ic ts isc tm im x : Z,
    getitem [6; 97] (-1) = Ok x
    /\ cvfnn_complexity [6; 97] = Ok (tc, ic)
    /\ cvfnn_complexity ([6; 97] ++ [3])
       = Ok (tc + 12 * x * 3 + 8 * 3, ic + 4 * 3 * x)
    /\ scfnn_complexity [6; 97] = Ok (ts, isc)
    /\ scfnn_complexity ([6; 97] ++ [3])
       = Ok (ts + 12 * x * 3 + 2 * x + 6 * 3, isc + 4 * 3 * x)
    /\ mlmvn_complexity [6; 97] = Ok (tm, im)
    /\ mlmvn_complexity ([6; 97] ++ [3])
       = Ok (tm + 12 * x * 3 + 4 * x + 12 * 3, im + 4 * 3 * (x + 1)).
Proof. apply (adding_output_layer [6; 97] 3). simpl; lia. Defined.

(** ** The call and the heap *)

(** X12.  A call of [ptrbf_complexity] changes no list that exists when
    it starts, its arguments or any other: the lists it creates are new
    objects, and only those are appended to.  This holds also when the
    call raises. *)
Theorem ptrbf_complexity_changes_no_object
        (h : Heap.heap) (pI pO q : Heap.loc) :
  is_Some (h !! q) ->
  snd (ByReference.ptrbf_complexity pI pO h) !! q = h !! q.
Proof. intros Hq. apply HeapFacts.framed_ptrbf_complexity, Hq. Qed.

Lemma ptrbf_complexity_changes_no_object_witness :
  let h : Heap.heap :=
    <[1%positive := [50; 50]]>
      (<[2%positive := [6; 50; 3]]> {[5%positive := [1; 2]]}) in
  snd (ByReference.ptrbf_complexity 1%positive 2%positive h) !! 5%positive
  = h !! 5%positive.
Proof.
  apply (ptrbf_complexity_changes_no_object
           (<[1%positive := [50; 50]]>
              (<[2%positive := [6; 50; 3]]> {[5%positive := [1; 2]]}))
           1%positive 2%positive 5%positive).
  exists [1; 2]. reflexivity.
Defined.

(** X13.  A call can be repeated: on the heap a first call leaves
    behind, a second call with the same two references returns the same
    pair, or raises the same error. *)
Theorem ptrbf_complexity_repeatable
        (h : Heap.heap) (pI pO : Heap.loc) (I O : list Z) :
  h !! pI = Some I -> h !! pO = Some O ->
  fst (ByReference.ptrbf_complexity pI pO
         (snd (ByReference.ptrbf_complexity pI pO h)))
  = fst (ByReference.ptrbf_complexity pI pO h).
Proof.
  intros HI HO.
  pose proof (HeapFacts.framed_ptrbf_complexity pI pO h) as Hfr.
  rewrite (HeapFacts.ptrbf_complexity_run pI pO I O h HI HO).
  apply HeapFacts.ptrbf_complexity_run.
  - rewrite Hfr; [exact HI|]. rewrite HI. eexists. reflexivity.
  - rewrite Hfr; [exact HO|]. rewrite HO. eexists. reflexivity.
Qed.

Lemma ptrbf_complexity_repeatable_witness :
  let h : Heap.heap := <[1%positive := [50; 50]]> {[2%positive := [6; 50; 3]]} in
  fst (ByReference.ptrbf_complexity 1%positive 2%positive
         (snd (ByReference.ptrbf_complexity 1%positive 2%positive h)))
  = fst (ByReference.ptrbf_complexity 1%positive 2%positive h).
Proof.
  apply (ptrbf_complexity_repeatable
           (<[1%positive := [50; 50]]> {[2%positive := [6; 50; 3]]})
           1%positive 2%positive [50; 50] [6; 50; 3]).
  - reflexivity.
  - reflexivity.
Defined.

(** X14.  Passing one and the same list as both arguments always raises
    [IndexError] (the list is one entry too short to be [O]), and the
    list is left as it was. *)
Theorem ptrbf_complexity_same_list
        (h : Heap.heap) (p : Heap.loc) (L : list Z) :
  h !! p = Some L ->
  fst (ByReference.ptrbf_complexity p p h) = Raise IndexError
  /\ snd (ByReference.ptrbf_complexity p p h) !! p = Some L.
Proof.
  intros Hp. split.
  - rewrite (HeapFacts.ptrbf_complexity_run p p L L h Hp Hp).
    apply ptrbf_raise. lia.
  - rewrite HeapFacts.framed_ptrbf_complexity; [exact Hp|].
    rewrite Hp. eexists. reflexivity.
Qed.

Lemma ptrbf_complexity_same_list_witness :
  let h : Heap.heap := {[1%positive := [6; 50; 3]]} in
  fst (ByReference.ptrbf_complexity 1%positive 1%positive h) = Raise IndexError
  /\ snd (ByReference.ptrbf_complexity 1%positive 1%positive h) !! 1%positive
     = Some [6; 50; 3].
Proof.
  apply (ptrbf_complexity_same_list {[1%positive := [6; 50; 3]]}
           1%positive [6; 50; 3]).
  reflexivity.
Defined.
